(** * NumericalOptimization: the iterative solver core, embedded in Rocq

    A shallow embedding of
      - [optimization/utils.py]                         ([cholesky_solve], [ldl_solve]),
      - [optiml/opti/constrained/bcqp/_base.py]         (the memoized Lagrangian dual),
      - [optiml/opti/qp/bcqp/_base.py]                  (the LDL^T Lagrangian dual),
      - [optimization/unconstrained/accelerated_gradient.py],
      - [optimization/unconstrained/proximal_bundle.py].

    Conventions.  A Python float is a rational ([Q]); the few places where the
    code stores [np.inf] or [np.nan] use [xreal].  A numpy vector is a
    [list Q], a matrix a list of rows.  numpy arrays are objects: the ones
    the code keeps references to and mutates in place live in a [heap] and
    are named by their location.  A Python exception is a value of [exn];
    code that may raise returns a [result]. *)

From Stdlib Require Import String QArith Qabs Lqa Lia ZArith.
From stdpp Require Import base option list.

Local Open Scope Q_scope.

(** ** Python values, exceptions and results *)

Module Py.

Inductive exn : Type :=
  | TypeError
  | ValueError
  | AttributeError
  | LinAlgError
  | IndexError
  | UnboundLocalError (name : string)
  | ObjectiveError (code : nat).

(** [UnboundLocalError] is a subclass of [NameError]. *)
Definition is_NameError (e : exn) : bool :=
  match e with UnboundLocalError _ => true | _ => false end.

Inductive result (A : Type) : Type :=
  | Ret (a : A)
  | Raise (e : exn).
Arguments Ret {A} a.
Arguments Raise {A} e.

#[global] Instance result_ret : MRet result := fun _ a => Ret a.
#[global] Instance result_bind : MBind result := fun _ _ f m =>
  match m with Ret a => f a | Raise e => Raise e end.

(** Floats that may be infinite or not-a-number. *)
Inductive xreal : Type :=
  | NaN
  | NInf
  | Fin (q : Q)
  | PInf.

(** [a < b] on floats; every comparison with [nan] is false. *)
Definition xlt (a b : xreal) : bool :=
  match a, b with
  | NaN, _ | _, NaN => false
  | NInf, NInf => false
  | NInf, _ => true
  | Fin _, NInf => false
  | Fin x, Fin y => negb (Qle_bool y x)
  | Fin _, PInf => true
  | PInf, _ => false
  end.

Arguments xlt : simpl never.

Definition xle (a b : xreal) : bool :=
  match a, b with
  | NaN, _ | _, NaN => false
  | NInf, _ => true
  | Fin _, NInf => false
  | Fin x, Fin y => Qle_bool x y
  | Fin _, PInf => true
  | PInf, PInf => true
  | PInf, _ => false
  end.

Arguments xle : simpl never.

Definition Qlt_bool (a b : Q) : bool := negb (Qle_bool b a).

(** Python objects, as far as [raise] looks at them. *)
Inductive pyobj : Type :=
  | PyFloat (x : xreal)
  | PyArray (a : list xreal)
  | PyException (e : exn).

(** The statement [raise o]: an operand that is not an exception makes the
    statement itself fail with a [TypeError]. *)
Definition raise_stmt {A : Type} (o : pyobj) : result A :=
  match o with
  | PyException e => Raise e
  | _ => Raise TypeError
  end.

End Py.

Import Py.

(** ** numpy on vectors and matrices *)

Module LinAlg.

Definition vec : Type := list Q.
Definition mat : Type := list (list Q).

Fixpoint zip_with_Q (f : Q -> Q -> Q) (a b : vec) : vec :=
  match a, b with
  | x :: a', y :: b' => f x y :: zip_with_Q f a' b'
  | _, _ => []
  end.

Definition same_shape (a b : vec) : bool := Nat.eqb (length a) (length b).

(** Elementwise operations; operands of different lengths are a
    [ValueError] (broadcasting of a one-element operand is not modelled). *)
Definition elementwise (f : Q -> Q -> Q) (a b : vec) : result vec :=
  if same_shape a b then Ret (zip_with_Q f a b) else Raise ValueError.

Definition vadd : vec -> vec -> result vec := elementwise Qplus.
Definition vsub : vec -> vec -> result vec := elementwise Qminus.
Definition vneg (a : vec) : vec := map Qopp a.
Definition vscale (c : Q) (a : vec) : vec := map (Qmult c) a.

Definition sum_products (a b : vec) : Q :=
  fold_right Qplus 0 (zip_with_Q Qmult a b).

(** [a.dot(b)] for two vectors. *)
Definition dot (a b : vec) : result Q :=
  if same_shape a b then Ret (sum_products a b) else Raise ValueError.

Definition column (j : nat) (m : mat) : vec := map (fun row => nth j row 0) m.

Definition ncols (m : mat) : nat :=
  match m with [] => O | row :: _ => length row end.

Definition transpose (m : mat) : mat :=
  map (fun j => column j m) (seq 0 (ncols m)).

(** [x.dot(M)] for a vector and a matrix: the row vector [x^T M]. *)
Definition vec_mat (x : vec) (m : mat) : result vec :=
  if Nat.eqb (length x) (length m)
  then Ret (map (fun j => sum_products x (column j m)) (seq 0 (ncols m)))
  else Raise ValueError.

(** [M.dot(x)]. *)
Definition mat_vec (m : mat) (x : vec) : result vec :=
  if forallb (fun row => same_shape row x) m
  then Ret (map (fun row => sum_products row x) m)
  else Raise ValueError.

(** [np.array_equal] on two vectors. *)
Fixpoint array_equal (a b : vec) : bool :=
  match a, b with
  | [], [] => true
  | x :: a', y :: b' => Qeq_bool x y && array_equal a' b'
  | _, _ => false
  end.

(** [np.split(a, 2)]: two halves, a [ValueError] when the length is odd. *)
Definition split2 (a : vec) : result (vec * vec) :=
  if Nat.even (length a)
  then Ret (firstn (Nat.div2 (length a)) a, skipn (Nat.div2 (length a)) a)
  else Raise ValueError.

Definition hstack (a b : vec) : vec := a ++ b.

Section Backend.

(** [np.sqrt] on floats: the development holds for every choice of it. *)
Variable sqrt : Q -> Q.

(** [np.linalg.norm]. *)
Definition norm (a : vec) : Q := sqrt (sum_products a a).

(** One row of the Cholesky factor (Cholesky-Banachiewicz).  [prev] holds
    the rows already computed, each cut after its diagonal entry; only the
    lower triangle of the input is read, as LAPACK does. *)
Fixpoint chol_row (prev : list vec) (a_row : vec) (cur : vec) : result vec :=
  match prev, a_row with
  | lj :: prev', aij :: a_row' =>
      let s := aij - sum_products cur lj in
      chol_row prev' a_row' (cur ++ [s / List.last lj 0])
  | [], aii :: _ =>
      let s := aii - sum_products cur cur in
      if Qlt_bool 0 s then Ret (cur ++ [sqrt s]) else Raise LinAlgError
  | _, [] => Raise LinAlgError
  end.

Fixpoint chol_rows (prev : list vec) (rows : mat) : result (list vec) :=
  match rows with
  | [] => Ret prev
  | a_row :: rows' =>
      r ← chol_row prev a_row [];
      chol_rows (prev ++ [r]) rows'
  end.

Definition pad (n : nat) (r : vec) : vec := r ++ repeat 0 (n - length r).

(** [np.linalg.cholesky]: the lower-triangular [L] with [L L^T = A];
    [LinAlgError] when [A] is not positive-definite. *)
Definition cholesky (a : mat) : result mat :=
  rows ← chol_rows [] a;
  mret (map (pad (length a)) rows).

(** First equation whose leading coefficient is not zero. *)
Fixpoint pick_pivot (rows : list (vec * Q)) : option ((vec * Q) * list (vec * Q)) :=
  match rows with
  | [] => None
  | (r, b) :: rows' =>
      if Qeq_bool (hd 0 r) 0
      then match pick_pivot rows' with
           | Some (p, rest) => Some (p, (r, b) :: rest)
           | None => None
           end
      else Some ((r, b), rows')
  end.

(** Gaussian elimination on [k] equations in [k] unknowns. *)
Fixpoint eliminate (k : nat) (rows : list (vec * Q)) : result vec :=
  match k with
  | O => Ret []
  | S k' =>
      match pick_pivot rows with
      | None => Raise LinAlgError
      | Some ((p, bp), rest) =>
          let a := hd 0 p in
          let reduce := fun '(r, br) =>
            let m := hd 0 r / a in
            (zip_with_Q (fun x y => x - m * y) (tl r) (tl p), br - m * bp) in
          xs ← eliminate k' (map reduce rest);
          mret ((bp - sum_products (tl p) xs) / a :: xs)
      end
  end.

(** [np.linalg.solve(M, b)]: the solution of [M x = b]; [LinAlgError] when
    [M] is not square or is singular, [ValueError] on a shape mismatch. *)
Definition solve (m : mat) (b : vec) : result vec :=
  if negb (forallb (fun row => Nat.eqb (length row) (length m)) m)
  then Raise LinAlgError
  else if negb (Nat.eqb (length b) (length m)) then Raise ValueError
  else eliminate (length m) (combine m b).

End Backend.

(** A square root that is exact on squares of rationals, for the examples. *)
Definition exact_sqrt (x : Q) : Q :=
  let r := Qred x in
  Z.sqrt (Qnum r) # Pos.of_nat (Z.to_nat (Z.sqrt (Zpos (Qden r)))).

End LinAlg.

Import LinAlg.

(** ** State and exceptions together *)

Module StateM.

Definition M (S A : Type) : Type := S -> result (A * S).

#[global] Instance M_ret {S} : MRet (M S) := fun _ a s => Ret (a, s).
#[global] Instance M_bind {S} : MBind (M S) := fun _ _ f m s =>
  match m s with
  | Ret (a, s') => f a s'
  | Raise e => Raise e
  end.

Definition get {S} : M S S := fun s => Ret (s, s).
Definition put {S} (s : S) : M S unit := fun _ => Ret (tt, s).
Definition modify {S} (f : S -> S) : M S unit := fun s => Ret (tt, f s).
Definition raise {S A} (e : exn) : M S A := fun _ => Raise e.
Definition lift {S A} (r : result A) : M S A := fun s =>
  match r with Ret a => Ret (a, s) | Raise e => Raise e end.

End StateM.

Import StateM.

(** ** The quadratic that the relaxations wrap *)

Module Quadratic.

(** Modelled from the spec: the class [Quadratic] is imported by both
    [_base.py] files but is not among the sources; it holds the matrix [Q]
    and the vector [q] of [1/2 x^T Q x + q^T x], its [ndim] is the length
    of [q], and [function] evaluates that expression. *)
Record Quadratic : Type := { Q_ : mat; q_ : vec }.

Definition ndim (quad : Quadratic) : nat := length (q_ quad).

Definition function (quad : Quadratic) (x : vec) : result Q :=
  xQ ← vec_mat x (Q_ quad);
  xQx ← dot xQ x;
  qx ← dot (q_ quad) x;
  mret ((1 # 2) * xQx + qx).

End Quadratic.

(** ** optiml/opti/constrained/bcqp/_base.py *)

Module LagrangianBoxConstrainedQuadratic.

Definition loc : Type := nat.

(** What numpy is asked to do, in order: the factorizations and the
    triangular solves (ghost state, read by no code). *)
Inductive event : Type :=
  | Factorize (a : mat)
  | Solve (m : mat) (b : vec).

(** [primal_x] starts as the float [np.inf] and later refers to an array. *)
Inductive point_ref : Type :=
  | FloatValue (x : xreal)
  | ArrayAt (l : loc).

(** The attributes of the object. *)
Record object : Type := {
  Q_ : mat;
  q_ : vec;
  ndim : nat;
  L : mat;
  ub : vec;
  primal : Quadratic.Quadratic;
  primal_x : point_ref;
  primal_f_x : xreal;
  last_lmbda : option loc;
  last_x : option loc
}.

(** The object, the numpy arrays that exist, and the trace of numpy calls. *)
Record state : Type := {
  self : object;
  heap : list vec;
  trace : list event
}.

Definition set_self (f : object -> object) (s : state) : state :=
  {| self := f (self s); heap := heap s; trace := trace s |}.

Definition set_memo (l lx : loc) (o : object) : object :=
  {| Q_ := Q_ o; q_ := q_ o; ndim := ndim o; L := L o; ub := ub o;
     primal := primal o; primal_x := primal_x o; primal_f_x := primal_f_x o;
     last_lmbda := Some l; last_x := Some lx |}.

Definition set_primal (lx : loc) (fx : xreal) (o : object) : object :=
  {| Q_ := Q_ o; q_ := q_ o; ndim := ndim o; L := L o; ub := ub o;
     primal := primal o; primal_x := ArrayAt lx; primal_f_x := fx;
     last_lmbda := last_lmbda o; last_x := last_x o |}.

(** Reading an array through a reference. *)
Definition read (l : loc) : M state vec := fun s =>
  match heap s !! l with
  | Some a => Ret (a, s)
  | None => Raise AttributeError
  end.

(** A new array object. *)
Definition alloc (a : vec) : M state loc := fun s =>
  Ret (length (heap s),
       {| self := self s; heap := heap s ++ [a]; trace := trace s |}).

(** Assignment into an existing array: the object stays, its contents change. *)
Definition write (l : loc) (a : vec) : M state unit := fun s =>
  Ret (tt, {| self := self s; heap := <[l := a]> (heap s); trace := trace s |}).

Definition log (e : event) : M state unit := fun s =>
  Ret (tt, {| self := self s; heap := heap s; trace := trace s ++ [e] |}).

(** [np.array_equal(lmbda, self.last_lmbda)]; [last_lmbda] is [None] until
    the first evaluation, and an array never equals [None]. *)
Definition array_equal_ref (lam : vec) (r : option loc) : M state bool :=
  match r with
  | None => mret false
  | Some l0 => lam0 ← read l0; mret (array_equal lam lam0)
  end.

(** [x[x < 0] = 0]. *)
Definition clip_below (x : vec) : vec :=
  map (fun xi => if Qlt_bool xi 0 then 0 else xi) x.

(** [idx = x > ub; x[idx] = ub[idx]]. *)
Definition clip_above (u x : vec) : vec :=
  zip_with_Q (fun xi ui => if Qlt_bool ui xi then ui else xi) x u.

Definition project (u x : vec) : vec := clip_above u (clip_below x).

(** What [__init__] establishes and the evaluations maintain: the box has
    no negative bound, and the memoized point is an array of its own, not
    the array of the evaluation point it was computed for. *)
Definition well_formed (s : state) : Prop :=
  Forall (Qle 0) (ub (self s)) /\
  forall l0 lx, last_lmbda (self s) = Some l0 -> last_x (self s) = Some lx -> l0 <> lx.

Section Relaxation.

Variable sqrt : Q -> Q.

(** [nearest_posdef] is imported from a module that is not among the
    sources; the spec calls it an externally supplied repair. *)
Variable nearest_posdef : mat -> mat.

Definition np_linalg_cholesky (a : mat) : M state mat :=
  log (Factorize a);; lift (cholesky sqrt a).

Definition np_linalg_solve (m : mat) (b : vec) : M state vec :=
  log (Solve m b);; lift (solve m b).

(** optimization/utils.py, [cholesky_solve(A, b)]. *)
Definition cholesky_solve (A : mat) (b : vec) : M state vec :=
  L ← np_linalg_cholesky A;
  y ← np_linalg_solve L b;
  np_linalg_solve (transpose L) y.

(** [__init__(self, quad, ub)], run in a world that holds the arrays [h].
    The [isinstance] test is the type of [quad]. *)
Definition init (quad : Quadratic.Quadratic) (u : vec) (h : list vec)
  : result state :=
  let Qpd := nearest_posdef (Quadratic.Q_ quad) in
  L0 ← cholesky sqrt Qpd;
  if existsb (fun ui => Qlt_bool ui 0) u then Raise ValueError
  else Ret {| self := {| Q_ := Qpd; q_ := Quadratic.q_ quad;
                         ndim := (Quadratic.ndim quad * 2)%nat;
                         L := L0; ub := u; primal := quad;
                         primal_x := FloatValue PInf; primal_f_x := PInf;
                         last_lmbda := None; last_x := None |};
              heap := h;
              trace := [Factorize Qpd] |}.

(** [ql = self.q + lmbda_p - lmbda_n]. *)
Definition shifted_q (q lmbda_p lmbda_n : vec) : result vec :=
  a ← vadd q lmbda_p; vsub a lmbda_n.

(** The test [np.array_equal(lmbda, self.last_lmbda)] and, when it holds,
    [x = self.last_x]: the reference to the memoized array.  The two
    attributes are assigned together, so [last_x] is an array whenever the
    test holds; using [None] as an array would raise. *)
Definition memo_lookup (lam : vec) : M state (option loc) :=
  s ← get;
  same ← array_equal_ref lam (last_lmbda (self s));
  match same with
  | true =>
      match last_x (self s) with
      | Some lx => mret (Some lx)
      | None => raise AttributeError
      end
  | false => mret None
  end.

(** The other branch: [x = cholesky_solve(self.L, -ql)], then
    [self.last_lmbda = lmbda] and [self.last_x = x], by reference. *)
Definition solve_and_memoize (lmbda : loc) (ql : vec) : M state loc :=
  s ← get;
  x ← cholesky_solve (L (self s)) (vneg ql);
  lx ← alloc x;
  modify (set_self (set_memo lmbda lx));;
  mret lx.

(** [(0.5 * x.T.dot(self.Q) + ql.T).dot(x) - lmbda_p.T.dot(self.ub)]. *)
Definition dual_value (o : object) (ql lmbda_p x : vec) : result Q :=
  xQ ← vec_mat x (Q_ o);
  w ← vadd (vscale (1 # 2) xQ) ql;
  wx ← dot w x;
  lu ← dot lmbda_p (ub o);
  mret (wx - lu).

(** [function(self, lmbda)]. *)
Definition function (lmbda : loc) : M state Q :=
  lam ← read lmbda;
  '(lmbda_p, lmbda_n) ← lift (split2 lam);
  s ← get;
  ql ← lift (shifted_q (q_ (self s)) lmbda_p lmbda_n);
  hit ← memo_lookup lam;
  lx ← match hit return M state loc with
       | Some lx => mret lx
       | None => solve_and_memoize lmbda ql
       end;
  x ← read lx;
  lift (dual_value (self s) ql lmbda_p x).

(** The projection of [x] on the box, in place, and the update of the
    best primal point seen: the second half of [jacobian]. *)
Definition project_and_record (lx : loc) (x : vec) : M state unit :=
  s ← get;
  write lx (clip_below x);;
  (if same_shape (clip_below x) (ub (self s)) return M state unit
   then mret tt else raise ValueError);;
  write lx (project (ub (self s)) x);;
  v ← lift (Quadratic.function (primal (self s)) (project (ub (self s)) x));
  if xlt (Fin v) (primal_f_x (self s)) return M state unit
  then modify (set_self (set_primal lx (Fin (- v))))
  else mret tt.

(** [jacobian(self, lmbda)].  The memo test comes first; [ql] is computed
    only when a solve is needed. *)
Definition jacobian (lmbda : loc) : M state vec :=
  lam ← read lmbda;
  hit ← memo_lookup lam;
  lx ← match hit return M state loc with
       | Some lx => mret lx
       | None =>
           '(lmbda_p, lmbda_n) ← lift (split2 lam);
           s ← get;
           ql ← lift (shifted_q (q_ (self s)) lmbda_p lmbda_n);
           solve_and_memoize lmbda ql
       end;
  x ← read lx;
  s ← get;
  d ← lift (vsub (ub (self s)) x);
  let g := hstack d x in
  project_and_record lx x;;
  mret g.

(** [x_star(self)]: [raise np.full(fill_value=np.nan, shape=self.ndim)]. *)
Definition x_star (o : object) : result vec :=
  raise_stmt (PyArray (repeat NaN (ndim o))).

(** [f_star(self)]. *)
Definition f_star (o : object) : xreal := PInf.

End Relaxation.

End LagrangianBoxConstrainedQuadratic.

(** ** optiml/opti/qp/bcqp/_base.py *)

Module LagrangianLDL.

Inductive event : Type :=
  | Factorize (a : mat)
  | Solve (m : mat) (b : vec).

(** The attributes of the object.  [primal_solution] is the float
    [np.inf] ([None] here) until a heuristic point is recorded.  Every
    evaluation makes a new array [x], and the object keeps a reference only
    to arrays that no later call touches, so arrays are held by value. *)
Record object : Type := {
  Q_ : mat;
  q_ : vec;
  ndim : nat;
  L : mat;
  D : mat;
  P : list nat;
  ub : vec;
  primal : Quadratic.Quadratic;
  primal_solution : option vec;
  primal_value : xreal
}.

Record state : Type := {
  self : object;
  trace : list event
}.

Definition set_primal (x : vec) (fx : xreal) (s : state) : state :=
  let o := self s in
  {| self := {| Q_ := Q_ o; q_ := q_ o; ndim := ndim o; L := L o; D := D o;
                P := P o; ub := ub o; primal := primal o;
                primal_solution := Some x; primal_value := fx |};
     trace := trace s |}.

Definition log (e : event) : M state unit := fun s =>
  Ret (tt, {| self := self s; trace := trace s ++ [e] |}).

(** [b[P]]: indexing by an array of indices. *)
Fixpoint take (b : vec) (p : list nat) : result vec :=
  match p with
  | [] => Ret []
  | i :: p' =>
      match b !! i with
      | Some bi => r ← take b p'; mret (bi :: r)
      | None => Raise IndexError
      end
  end.

Section Relaxation.

(** [scipy.linalg.ldl]: the factors [L], [D] and the permutation [P]. *)
Variable ldl : mat -> result (mat * mat * list nat).

Definition np_linalg_solve (m : mat) (b : vec) : M state vec :=
  log (Solve m b);; lift (solve m b).

(** optimization/utils.py, [ldl_solve(ldl_factor, b)]. *)
Definition ldl_solve (ldl_factor : mat * mat * list nat) (b : vec) : M state vec :=
  let '(L, D, P) := ldl_factor in
  bP ← lift (take b P);
  y ← np_linalg_solve L bP;
  w ← np_linalg_solve D y;
  np_linalg_solve (transpose L) w.

(** [__init__(self, quad, ub)]. *)
Definition init (quad : Quadratic.Quadratic) (u : vec) : result state :=
  '(L0, D0, P0) ← ldl (Quadratic.Q_ quad);
  if existsb (fun ui => Qlt_bool ui 0) u then Raise ValueError
  else Ret {| self := {| Q_ := Quadratic.Q_ quad; q_ := Quadratic.q_ quad;
                         ndim := (Quadratic.ndim quad * 2)%nat;
                         L := L0; D := D0; P := P0; ub := u; primal := quad;
                         primal_solution := None; primal_value := PInf |};
              trace := [Factorize (Quadratic.Q_ quad)] |}.

(** The first three lines of both [function] and [jacobian]. *)
Definition relaxed_point (lmbda : vec) : M state (vec * vec * vec) :=
  '(lmbda_p, lmbda_n) ← lift (split2 lmbda);
  s ← get;
  a ← lift (vadd (q_ (self s)) lmbda_p);
  ql ← lift (vsub a lmbda_n);
  x ← ldl_solve (L (self s), D (self s), P (self s)) (vneg ql);
  mret (lmbda_p, ql, x).

(** [function(self, lmbda)]. *)
Definition function (lmbda : vec) : M state Q :=
  '(lmbda_p, ql, x) ← relaxed_point lmbda;
  s ← get;
  xQ ← lift (vec_mat x (Q_ (self s)));
  w ← lift (vadd (vscale (1 # 2) xQ) ql);
  wx ← lift (dot w x);
  lu ← lift (dot lmbda_p (ub (self s)));
  mret (wx - lu).

(** [jacobian(self, lmbda)]. *)
Definition jacobian (lmbda : vec) : M state vec :=
  '(_, _, x) ← relaxed_point lmbda;
  s ← get;
  d ← lift (vsub (ub (self s)) x);
  let g := hstack d x in
  let x0 := LagrangianBoxConstrainedQuadratic.clip_below x in
  (if same_shape x0 (ub (self s)) return M state unit
   then mret tt else raise ValueError);;
  let px := LagrangianBoxConstrainedQuadratic.project (ub (self s)) x in
  v ← lift (Quadratic.function (primal (self s)) px);
  (if xlt (Fin v) (primal_value (self s)) return M state unit
   then modify (set_primal px (Fin (- v)))
   else mret tt);;
  mret g.

End Relaxation.

(** [x_star(self)]: [raise np.full(fill_value=np.nan, shape=self.ndim)]. *)
Definition x_star (o : object) : result vec :=
  raise_stmt (PyArray (repeat NaN (ndim o))).

(** [f_star(self)]. *)
Definition f_star (o : object) : xreal := PInf.

End LagrangianLDL.

(** ** What the solvers share *)

Module Optimizer.

(** The status a solver returns with its point. *)
Inductive status : Type := optimal | unbounded | stopped | error.

(** An objective as a solver sees it: [function([])] is the known lower
    bound on the optimum, [function(x)] the value and [jacobian(x)] a
    (sub)gradient.  An objective is user code and may raise. *)
Record Objective : Type := {
  lower_bound : result xreal;
  function : vec -> result Q;
  jacobian : vec -> result vec
}.

(** A local variable that is assigned on some paths only. *)
Definition read_local {A : Type} (name : string) (v : option A) : result A :=
  match v with
  | Some a => Ret a
  | None => Raise (UnboundLocalError name)
  end.

Definition Q_of_Z (z : Z) : Q := inject_Z z.

End Optimizer.

Import Optimizer.

(** ** optimization/unconstrained/accelerated_gradient.py *)

Module AcceleratedGradient.

(** The attributes set by [__init__]; [x] and [a_start] are the two that
    [minimize] assigns to, and they travel in [locals].  The printing and
    plotting switches have no effect on the result and are left out. *)
Record config : Type := {
  f : Objective;
  n : nat;
  x0 : vec;
  a_start0 : Q;
  m1 : Q;
  mon : Q;
  wf : Z;
  eps : Q;
  max_f_eval : Z;
  tau : Q;
  m_inf : xreal;
  min_a : Q
}.

(** The checks of [__init__] on [m1] and [wf]. *)
Definition init (c : config) : result config :=
  if Qlt_bool (m1 c) 0 || Qle_bool 1 (m1 c) then Raise ValueError
  else if (wf c <? 0)%Z || (wf c >? 3)%Z then Raise ValueError
  else Ret c.

(** [if self.mon:] on a number. *)
Definition truthy (a : Q) : bool := negb (Qeq_bool a 0).

(** The variables of [minimize] that live across iterations.  [past_x],
    [past_xv], [xv] and [beta] are assigned on some paths only.  The local
    [d] is assigned anew ([d = -g]) in every iteration before it is read. *)
Record locals : Type := {
  x : vec;
  a_start : Q;
  last_x : vec;
  last_g : vec;
  f_eval : Z;
  i : Z;
  gamma : Q;
  y : vec;
  past_x : option vec;
  past_xv : option xreal;
  xv : option Q;
  beta : option Q
}.

(** One pass through the loop body either goes on or breaks with a status. *)
Inductive outcome : Type :=
  | Continue (s : locals)
  | Break (x : vec) (st : status).

(** What [backtracking_line_search] returns: [a, v, last_x, last_g, _, f_eval]. *)
Record line_search_result : Type := {
  ls_a : Q;
  ls_v : Q;
  ls_last_x : vec;
  ls_last_g : vec;
  ls_f_eval : Z
}.

Section Minimize.

Variable sqrt : Q -> Q.

(** [backtracking_line_search] is imported from a module that is not among
    the sources; its arguments are, in the order of the call: [f], [d],
    [x], [last_x], [last_g], [f_eval], [max_f_eval], [min_a], [v], the
    slope [-ng], the first step [abs(a_start)], [m1] and [tau]. *)
Variable backtracking_line_search :
  Objective -> vec -> vec -> vec -> vec -> Z -> Z -> Q -> Q -> Q -> Q -> Q -> Q ->
  result line_search_result.

Variable c : config.

(** Lines 170-173: in the monotone version, [x = y] when [y] is better. *)
Definition keep_best (s : locals) (v : Q) : result (vec * option xreal) :=
  if truthy (mon c) then
    pxv ← read_local "past_xv" (past_xv s);
    if xlt (Fin v) pxv then Ret (y s, Some (Fin v))
    else Ret (x s, past_xv s)
  else Ret (x s, past_xv s).

(** Lines 194-207: the step size, by line search or fixed. *)
Definition step_size (s : locals) (x_now : vec) (v ng : Q) (g : vec) (f_eval1 : Z)
  : result (Q * Q * vec * vec * Z * Q * option Q) :=
  if Qlt_bool 0 (m1 c) then
    r ← backtracking_line_search (f c) (vneg g) x_now (last_x s) (last_g s)
          f_eval1 (max_f_eval c) (min_a c) v (- ng) (Qabs (a_start s))
          (m1 c) (tau c);
    let a_start' := if Qlt_bool (a_start s) 0 then - ls_a r else a_start s in
    Ret (ls_a r, ls_v r, ls_last_x r, ls_last_g r, ls_f_eval r, a_start', xv s)
  else
    let a := Qabs (a_start s) in
    lx ← vsub (y s) (vscale a g);
    xv' ← (if truthy (mon c)
           then v' ← function (f c) lx; mret (Some v')
           else mret (xv s));
    Ret (a, v, lx, last_g s, f_eval1, a_start s, xv').

(** Lines 226-231: in the monotone version, keep the better of the new
    and the last point. *)
Definition monotone_update (lx : vec) (pxv : option xreal) (s : locals) (xv_now : option Q)
  : result (vec * option vec * option xreal) :=
  if truthy (mon c) then
    xv_val ← read_local "xv" xv_now;
    pxv_val ← read_local "past_xv" pxv;
    if xlt pxv_val (Fin xv_val) then
      px ← read_local "past_x" (past_x s);
      Ret (px, past_x s, pxv)
    else Ret (lx, Some lx, Some (Fin xv_val))
  else Ret (lx, past_x s, pxv).

(** Lines 234-243: the momentum formulas [wf] 0, 1 and 2. *)
Definition momentum (s : locals) : Q * option Q :=
  if (wf c =? 0)%Z then
    let past_gamma := gamma s in
    let gamma' := (sqrt (4 * gamma s ^ 2 + gamma s ^ 4) - gamma s ^ 2) / 2 in
    (gamma', Some (gamma' * (1 / past_gamma - 1)))
  else if (wf c =? 1)%Z then
    let past_gamma := gamma s in
    let gamma' := (1 + sqrt (1 + 4 * past_gamma)) / 2 in
    (gamma', Some ((past_gamma - 1) / gamma'))
  else if (wf c =? 2)%Z then
    (gamma s, Some (Q_of_Z (i s) / Q_of_Z (i s + 3)))
  else (gamma s, beta s).

(** Lines 245-250: the next auxiliary point [y]. *)
Definition next_y (s : locals) (x_now lx g : vec) (a : Q) (beta_now : option Q)
  : result vec :=
  if (wf c <? 3)%Z then
    b ← read_local "beta" beta_now;
    df ← vsub lx x_now;
    vadd lx (vscale b df)
  else
    let k := Q_of_Z (i s) in
    d' ← vadd (vscale (2 / (k + 2)) g) (vscale (k / (k + 2)) (vneg g));
    let z := vscale (- ((k + 1) * (k + 2) * a / 4)) d' in
    vadd (vscale (2 / (k + 3)) z) (vscale ((k + 1) / (k + 3)) lx).

(** [ng0], chosen anew in every iteration (lines 163-166). *)
Definition scale_ng0 (s : locals) (ng : Q) : Q :=
  if (f_eval s =? 1)%Z && Qlt_bool (eps c) 0 then - ng else 1.

(** The test of line 184. *)
Definition stop_test (s : locals) (ng : Q) : bool :=
  Qle_bool ng (eps c * scale_ng0 s ng).

(** The body of [while True]. *)
Definition iteration (s : locals) : result outcome :=
  v ← function (f c) (y s);
  g ← jacobian (f c) (y s);
  let ng := norm sqrt g in
  let f_eval1 := (f_eval s + 1)%Z in
  '(x1, pxv1) ← keep_best s v;
  if stop_test s ng then Ret (Break x1 optimal)
  else if (f_eval1 >? max_f_eval c)%Z then Ret (Break x1 stopped)
  else
    '(a, v2, lx, lg, f_eval2, a_start2, xv2) ← step_size s x1 v ng g f_eval1;
    if Qle_bool a (min_a c) then Ret (Break x1 error)
    else if xle (Fin v2) (m_inf c) then Ret (Break x1 unbounded)
    else
      '(lx3, px3, pxv3) ← monotone_update lx pxv1 s xv2;
      let '(gamma4, beta4) := momentum s in
      y4 ← next_y s x1 lx3 g a beta4;
      Ret (Continue {| x := lx3; a_start := a_start2; last_x := lx3;
                       last_g := lg; f_eval := f_eval2; i := (i s + 1)%Z;
                       gamma := gamma4; y := y4; past_x := px3;
                       past_xv := pxv3; xv := xv2; beta := beta4 |}).

(** [while True], unrolled at most [fuel] times; [None] when the fuel runs
    out before the loop breaks. *)
Fixpoint loop (fuel : nat) (s : locals) : option (result (vec * status)) :=
  match fuel with
  | O => None
  | S fuel' =>
      match iteration s with
      | Raise e => Some (Raise e)
      | Ret (Break xb st) => Some (Ret (xb, st))
      | Ret (Continue s') => loop fuel' s'
      end
  end.

(** The state at the head of the loop (lines 132-154). *)
Definition start : locals :=
  {| x := x0 c; a_start := a_start0 c;
     last_x := repeat 0 (n c); last_g := repeat 0 (n c);
     f_eval := 1; i := 1; gamma := 1; y := x0 c;
     past_x := if truthy (mon c) then Some (x0 c) else None;
     past_xv := if truthy (mon c) then Some PInf else None;
     xv := None; beta := None |}.

(** [minimize(self)]. *)
Definition minimize (fuel : nat) : option (result (vec * status)) :=
  match lower_bound (f c) with
  | Raise e => Some (Raise e)
  | Ret _ => loop fuel start
  end.

End Minimize.

End AcceleratedGradient.

(** ** optimization/unconstrained/proximal_bundle.py *)

Module ProximalBundle.

(** [columns] tells how the point and the subgradients are laid out: as
    [n x 1] columns, which is what the header of the class has, or as
    one-dimensional arrays. *)
Record config : Type := {
  f : Objective;
  x0 : vec;
  columns : bool;
  mu : Q;
  m1 : Q;
  eps : Q;
  max_iter : Z;
  m_inf : xreal
}.

(** The checks of [__init__] on [mu] and [m1]. *)
Definition init (c : config) : result config :=
  if Qle_bool (mu c) 0 then Raise ValueError
  else if Qlt_bool (m1 c) 0 || Qlt_bool 1 (m1 c) then Raise ValueError
  else Ret c.

(** The names bound at the top level of the module: what lines 1-5 import
    and the class of line 8. *)
Definition module_globals : list string :=
  ["plt"; "np"; "Rosenbrock"; "Optimizer"; "ProximalBundle"]%string.

(** How a call of [minimize] ends when it raises: with an exception of the
    objective or of numpy, or with the [NameError] of a name that is read
    and bound nowhere. *)
Inductive fault : Type :=
  | Evaluation (e : exn)
  | NameError (name : string).

(** How a call of [minimize] ends. *)
Inductive outcome : Type :=
  | Returned (x : vec) (st : status)
  | Raised (e : fault).

(** Reading a name that [minimize] never assigns: it is looked up among the
    globals of the module, and then among the builtins, which have none of
    the names read here. *)
Definition load_global (name : string) : option fault :=
  if existsb (String.eqb name) module_globals then None
  else Some (NameError name).

(** Reading several such names in turn stops at the first unbound one. *)
Fixpoint load_globals (names : list string) : option fault :=
  match names with
  | [] => None
  | name :: rest =>
      match load_global name with
      | Some e => Some e
      | None => load_globals rest
      end
  end.

(** An array of one or of two dimensions. *)
Inductive ndarray : Type :=
  | Array1 (a : vec)
  | Array2 (a : mat).

(** [a * b] on two one-dimensional arrays: componentwise, an array with a
    single component being stretched to the length of the other. *)
Definition np_multiply (a b : vec) : result vec :=
  match a, b with
  | [a0], _ => Ret (map (fun bi => a0 * bi) b)
  | _, [b0] => Ret (map (fun ai => ai * b0) a)
  | _, _ => elementwise Qmult a b
  end.

(** [g.T], line 112. *)
Definition transposed (cols : bool) (g : vec) : ndarray :=
  if cols then Array2 [g] else Array1 g.

(** [fx - g.T * self.x], line 113.  [*] is the componentwise product of
    numpy.  On one-dimensional arrays [g.T] is [g]; on columns the row
    [g.T] and the column [self.x] are both stretched to a square array,
    whose entry in row [r] and column [k] is [g_k * x_r].  The float [fx]
    is stretched in turn. *)
Definition translated_values (cols : bool) (v : Q) (g p : vec) : result ndarray :=
  if cols then Ret (Array2 (map (fun pr => map (fun gk => v - gk * pr) g) p))
  else gp ← np_multiply g p; mret (Array1 (map (fun t => v - t) gp)).

(** The variables of [minimize] at line 130, before the loop. *)
Record state : Type := {
  x : vec;
  fx : Q;
  G : ndarray;
  F : ndarray;
  i : Z
}.

Section Minimize.

Variable sqrt : Q -> Q.

Variable c : config.

(** Lines 101-129: everything before the loop, in a run that neither
    prints nor plots. *)
Definition start : result (xreal * Q * state) :=
  f_star ← lower_bound (f c);
  v ← function (f c) (x0 c);
  g ← jacobian (f c) (x0 c);
  F0 ← translated_values (columns c) v g (x0 c);
  let ng := norm sqrt g in
  let ng0 := if Qlt_bool (eps c) 0 then - ng else 1 in
  mret (f_star, ng0,
        {| x := x0 c; fx := v; G := transposed (columns c) g; F := F0; i := 1 |}).

(** Line 132, [d = sdpvar(n, 1)], the first statement of the loop: the
    callee and then its first argument are read.  [minimize] assigns
    neither name, so both are looked up as globals. *)
Definition line_132 : list string := ["sdpvar"; "n"]%string.

(** What a run would go on to do if line 132 could be evaluated: that is
    for whoever binds the names to say, and nothing below depends on it. *)
Variable beyond_line_132 : xreal -> Q -> state -> outcome.

(** [minimize(self)]. *)
Definition minimize : outcome :=
  match start with
  | Raise e => Raised (Evaluation e)
  | Ret (f_star, ng0, s) =>
      match load_globals line_132 with
      | Some e => Raised e
      | None => beyond_line_132 f_star ng0 s
      end
  end.


End Minimize.

End ProximalBundle.

(** ** Concrete objectives, solvers and runs used by the examples *)

Module Examples.

(** [1/2 x^T diag(16, 81) x], on the box [[0,1]^2]. *)
Definition quad_diag : Quadratic.Quadratic :=
  {| Quadratic.Q_ := [[16; 0]; [0; 81]]; Quadratic.q_ := [0; 0] |}.

(** [1/2 x^2], on the box [[0, 5]]. *)
Definition quad_unit : Quadratic.Quadratic :=
  {| Quadratic.Q_ := [[1]]; Quadratic.q_ := [0] |}.

(** The LDL^T factors of the one-by-one identity. *)
Definition ldl_unit (a : mat) : result (mat * mat * list nat) :=
  Ret ([[1]], [[1]], [0%nat]).

(** The relaxation of [quad_unit] on the box [[0, 5]] as its constructor
    leaves it, in a world with three arrays; the first and the last are two
    objects with the same components. *)
Definition relaxation_state : LagrangianBoxConstrainedQuadratic.state :=
  {| LagrangianBoxConstrainedQuadratic.self :=
       {| LagrangianBoxConstrainedQuadratic.Q_ := [[1]];
          LagrangianBoxConstrainedQuadratic.q_ := [0];
          LagrangianBoxConstrainedQuadratic.ndim := 2;
          LagrangianBoxConstrainedQuadratic.L := [[1]];
          LagrangianBoxConstrainedQuadratic.ub := [5];
          LagrangianBoxConstrainedQuadratic.primal := quad_unit;
          LagrangianBoxConstrainedQuadratic.primal_x :=
            LagrangianBoxConstrainedQuadratic.FloatValue PInf;
          LagrangianBoxConstrainedQuadratic.primal_f_x := PInf;
          LagrangianBoxConstrainedQuadratic.last_lmbda := None;
          LagrangianBoxConstrainedQuadratic.last_x := None |};
     LagrangianBoxConstrainedQuadratic.heap := [[0; 7]; [0; 1]; [0; 7]];
     LagrangianBoxConstrainedQuadratic.trace :=
       [LagrangianBoxConstrainedQuadratic.Factorize [[1]]] |}.

(** The state an evaluation leaves behind. *)
Definition state_after {A : Type}
    (r : result (A * LagrangianBoxConstrainedQuadratic.state))
  : LagrangianBoxConstrainedQuadratic.state :=
  match r with Ret (_, s) => s | Raise _ => relaxation_state end.

Definition value_of {A : Type} (default : A)
    (r : result (A * LagrangianBoxConstrainedQuadratic.state)) : A :=
  match r with Ret (a, _) => a | Raise _ => default end.

(** The objective [1/2 ||p||^2], with gradient [p] and lower bound 0. *)
Definition half_square : Objective :=
  {| lower_bound := Ret (Fin 0);
     function := fun p => Ret ((1 # 2) * sum_products p p);
     jacobian := fun p => Ret p |}.

(** An objective that has no answer to [function([])], as the relaxations
    above have none. *)
Definition no_lower_bound : Objective :=
  {| lower_bound := Raise ValueError;
     function := fun p => Ret ((1 # 2) * sum_products p p);
     jacobian := fun p => Ret p |}.

(** Modelled from the spec: [backtracking_line_search] is not among the
    sources.  Starting from the first step, evaluate [f(x + a d)]; accept
    [a] when [f(x + a d) <= f(x) + m1 a phi'], otherwise multiply [a] by
    [tau] and retry; stop when [a] is at or below [min_a] or the evaluation
    budget is exhausted. *)
Fixpoint backtrack (fuel : nat) (f : Objective) (d x lx lg : vec)
    (f_eval max_f_eval : Z) (min_a v0 v phi' a m1 tau : Q)
  : result AcceleratedGradient.line_search_result :=
  let here := {| AcceleratedGradient.ls_a := a; AcceleratedGradient.ls_v := v;
                 AcceleratedGradient.ls_last_x := lx;
                 AcceleratedGradient.ls_last_g := lg;
                 AcceleratedGradient.ls_f_eval := f_eval |} in
  match fuel with
  | O => Ret here
  | S fuel' =>
      if (f_eval >? max_f_eval)%Z || Qle_bool a min_a then Ret here
      else
        p ← vadd x (vscale a d);
        fa ← function f p;
        g ← jacobian f p;
        if Qle_bool fa (v0 + m1 * a * phi')
        then Ret {| AcceleratedGradient.ls_a := a; AcceleratedGradient.ls_v := fa;
                    AcceleratedGradient.ls_last_x := p;
                    AcceleratedGradient.ls_last_g := g;
                    AcceleratedGradient.ls_f_eval := (f_eval + 1)%Z |}
        else backtrack fuel' f d x p g (f_eval + 1)%Z max_f_eval min_a v0 fa phi'
                       (tau * a) m1 tau
  end.

Definition backtracking_line_search (f : Objective) (d x lx lg : vec)
    (f_eval max_f_eval : Z) (min_a v phi' a m1 tau : Q)
  : result AcceleratedGradient.line_search_result :=
  backtrack (Z.to_nat (max_f_eval - f_eval + 1)) f d x lx lg f_eval max_f_eval
            min_a v v phi' a m1 tau.

(** Fixed step [1/2], non-monotone, formula 2, relative accuracy [1/2]. *)
Definition relative_config : AcceleratedGradient.config :=
  {| AcceleratedGradient.f := half_square; AcceleratedGradient.n := 1;
     AcceleratedGradient.x0 := [4]; AcceleratedGradient.a_start0 := 1 # 2;
     AcceleratedGradient.m1 := 0; AcceleratedGradient.mon := 0;
     AcceleratedGradient.wf := 2; AcceleratedGradient.eps := - (1 # 2);
     AcceleratedGradient.max_f_eval := 2; AcceleratedGradient.tau := 9 # 10;
     AcceleratedGradient.m_inf := NInf; AcceleratedGradient.min_a := 0 |}.

(** Monotone, with a backtracking line search. *)
Definition monotone_config : AcceleratedGradient.config :=
  {| AcceleratedGradient.f := half_square; AcceleratedGradient.n := 1;
     AcceleratedGradient.x0 := [4]; AcceleratedGradient.a_start0 := 1;
     AcceleratedGradient.m1 := 1 # 10; AcceleratedGradient.mon := 1;
     AcceleratedGradient.wf := 0; AcceleratedGradient.eps := 1 # 1000000;
     AcceleratedGradient.max_f_eval := 1000; AcceleratedGradient.tau := 9 # 10;
     AcceleratedGradient.m_inf := NInf; AcceleratedGradient.min_a := 0 |}.

Definition bundle_config (f : Objective) : ProximalBundle.config :=
  {| ProximalBundle.f := f; ProximalBundle.x0 := [4];
     ProximalBundle.columns := false;
     ProximalBundle.mu := 1; ProximalBundle.m1 := 1 # 100;
     ProximalBundle.eps := 1 # 1000000; ProximalBundle.max_iter := 1000;
     ProximalBundle.m_inf := NInf |}.

(** The same from the point [(3, 4)] of the plane, in either layout. *)
Definition plane_config (columns : bool) : ProximalBundle.config :=
  {| ProximalBundle.f := half_square; ProximalBundle.x0 := [3; 4];
     ProximalBundle.columns := columns;
     ProximalBundle.mu := 1; ProximalBundle.m1 := 1 # 100;
     ProximalBundle.eps := 1 # 1000000; ProximalBundle.max_iter := 1000;
     ProximalBundle.m_inf := NInf |}.

(** The relaxation of [quad_diag] on the box [[0, 1]^2] as its constructor
    leaves it, in a world with two arrays: two objects with the same
    components. *)
Definition plane_state : LagrangianBoxConstrainedQuadratic.state :=
  {| LagrangianBoxConstrainedQuadratic.self :=
       {| LagrangianBoxConstrainedQuadratic.Q_ := [[16; 0]; [0; 81]];
          LagrangianBoxConstrainedQuadratic.q_ := [0; 0];
          LagrangianBoxConstrainedQuadratic.ndim := 4;
          LagrangianBoxConstrainedQuadratic.L := [[4; 0]; [0; 9]];
          LagrangianBoxConstrainedQuadratic.ub := [1; 1];
          LagrangianBoxConstrainedQuadratic.primal := quad_diag;
          LagrangianBoxConstrainedQuadratic.primal_x :=
            LagrangianBoxConstrainedQuadratic.FloatValue PInf;
          LagrangianBoxConstrainedQuadratic.primal_f_x := PInf;
          LagrangianBoxConstrainedQuadratic.last_lmbda := None;
          LagrangianBoxConstrainedQuadratic.last_x := None |};
     LagrangianBoxConstrainedQuadratic.heap := [[8; 0; 0; 18]; [8; 0; 0; 18]];
     LagrangianBoxConstrainedQuadratic.trace :=
       [LagrangianBoxConstrainedQuadratic.Factorize [[16; 0]; [0; 81]]] |}.

End Examples.

(** ** optimization/utils.py, [clip] *)

Module Utils.

(** The builtins [min(a, b)] and [max(a, b)]: the first argument unless
    the second is strictly smaller, respectively strictly larger. *)
Definition py_min (a b : Q) : Q := if Qlt_bool b a then b else a.
Definition py_max (a b : Q) : Q := if Qlt_bool a b then b else a.

(** [clip(x, l, h)]. *)
Definition clip (x l h : Q) : Q := py_max l (py_min x h).

End Utils.

(** ** [BoxConstrainedQuadraticOptimizer], in both [_base.py] files *)

Module BoxConstrainedQuadraticOptimizer.

(** What the constructor is given as [f]: a [Quadratic] or something else. *)
Inductive objective : Type :=
  | QuadraticObjective (quad : Quadratic.Quadratic)
  | OtherObjective.

(** What the constructor leaves: the attributes that [Optimizer.__init__]
    set, and the attribute [ub] it sets itself. *)
Record optimizer (base : Type) : Type := {
  super : base;
  ub : vec
}.
Arguments super {base} o.
Arguments ub {base} o.

Section Init.

Context {base : Type}.

(** [Optimizer.__init__(f, x, eps, max_iter, ...)], the constructor of the
    superclass.  The class is not among the sources: the call is a
    parameter, which gives the attributes it sets or the exception it
    raises.  The callback and the verbosity are handed over as received. *)
Variable optimizer_init : Quadratic.Quadratic -> vec -> Q -> Z -> result base.

(** [__init__(self, f, ub, eps, max_iter, ...)]: the type test, the call of
    the superclass with the start [ub / 2], then the test of the bounds. *)
Definition init (obj : objective) (u : vec) (eps0 : Q) (max_iter0 : Z)
  : result (optimizer base) :=
  match obj with
  | OtherObjective => Raise TypeError
  | QuadraticObjective quad =>
      b ← optimizer_init quad (map (fun ui => ui / 2) u) eps0 max_iter0;
      if existsb (fun ui => Qlt_bool ui 0) u then Raise ValueError
      else Ret {| super := b; ub := u |}
  end.

End Init.

End BoxConstrainedQuadraticOptimizer.

(** ** The box, and what a caller can do to an array *)

Module Box.

(** [p] lies in the box [[0, u]]. *)
Definition in_box (u p : vec) : Prop :=
  Forall2 (fun pi ui => 0 <= pi /\ pi <= ui) p u.

(** The best primal point recorded by the memoized relaxation, if any, lies
    in the box. *)
Definition primal_feasible (s : LagrangianBoxConstrainedQuadratic.state) : Prop :=
  match LagrangianBoxConstrainedQuadratic.primal_x
          (LagrangianBoxConstrainedQuadratic.self s) with
  | LagrangianBoxConstrainedQuadratic.ArrayAt lx =>
      exists p, LagrangianBoxConstrainedQuadratic.heap s !! lx = Some p /\
                in_box (LagrangianBoxConstrainedQuadratic.ub
                          (LagrangianBoxConstrainedQuadratic.self s)) p
  | LagrangianBoxConstrainedQuadratic.FloatValue _ => True
  end.

(** The same for the LDL^T relaxation. *)
Definition ldl_primal_feasible (s : LagrangianLDL.state) : Prop :=
  match LagrangianLDL.primal_solution (LagrangianLDL.self s) with
  | Some p => in_box (LagrangianLDL.ub (LagrangianLDL.self s)) p
  | None => True
  end.

(** An assignment into the array at [l] by the caller, such as
    [lmbda[:] = a] or [lmbda += step]: the object stays, its contents change. *)
Definition overwrite (l : LagrangianBoxConstrainedQuadratic.loc) (a : vec)
    (s : LagrangianBoxConstrainedQuadratic.state)
  : LagrangianBoxConstrainedQuadratic.state :=
  {| LagrangianBoxConstrainedQuadratic.self := LagrangianBoxConstrainedQuadratic.self s;
     LagrangianBoxConstrainedQuadratic.heap :=
       <[l := a]> (LagrangianBoxConstrainedQuadratic.heap s);
     LagrangianBoxConstrainedQuadratic.trace := LagrangianBoxConstrainedQuadratic.trace s |}.

(** The dual value that [function] returns when it takes the inner point
    [x] as given: lines 83, 84 and 91. *)
Definition dual_value_at (o : LagrangianBoxConstrainedQuadratic.object) (lam x : vec)
  : result Q :=
  '(lmbda_p, lmbda_n) ← split2 lam;
  ql ← LagrangianBoxConstrainedQuadratic.shifted_q
         (LagrangianBoxConstrainedQuadratic.q_ o) lmbda_p lmbda_n;
  LagrangianBoxConstrainedQuadratic.dual_value o ql lmbda_p x.

End Box.

(** ** The passes of a run of AcceleratedGradient *)

Module AcceleratedGradientRuns.

Section Runs.

Variable sqrt : Q -> Q.
Variable backtracking_line_search :
  Objective -> vec -> vec -> vec -> vec -> Z -> Z -> Q -> Q -> Q -> Q -> Q -> Q ->
  result AcceleratedGradient.line_search_result.
Variable c : AcceleratedGradient.config.

(** The states at the head of the passes that the loop goes through. *)
Fixpoint history (fuel : nat) (s : AcceleratedGradient.locals)
  : list AcceleratedGradient.locals :=
  match fuel with
  | O => []
  | S fuel' =>
      s :: match AcceleratedGradient.iteration sqrt backtracking_line_search c s with
           | Ret (AcceleratedGradient.Continue s') => history fuel' s'
           | _ => []
           end
  end.

(** What the loop needs of its variables to run without a name error: the
    points have the dimension [n], and in the monotone version [past_x] and
    [past_xv] are assigned. *)
Definition ready (s : AcceleratedGradient.locals) : Prop :=
  length (AcceleratedGradient.x s) = AcceleratedGradient.n c /\
  length (AcceleratedGradient.y s) = AcceleratedGradient.n c /\
  (AcceleratedGradient.truthy (AcceleratedGradient.mon c) = true ->
   (exists p, AcceleratedGradient.past_xv s = Some p) /\
   (exists px, AcceleratedGradient.past_x s = Some px /\
               length px = AcceleratedGradient.n c)).

End Runs.

End AcceleratedGradientRuns.

(** * Properties *)

(** ** Comparisons, shapes and array equality *)

Lemma Qlt_bool_iff (a b : Q) : Qlt_bool a b = true <-> a < b.
Proof.
  unfold Qlt_bool. rewrite negb_true_iff.
  destruct (Qle_bool b a) eqn:E.
  - apply Qle_bool_iff in E. split; [discriminate | intros H; lra].
  - split; [intros _ | reflexivity].
    apply Qnot_le_lt. intros H. apply Qle_bool_iff in H. congruence.
Qed.


(** *** Facts about shapes and array equality *)

Lemma same_shape_length (a b : vec) : same_shape a b = true <-> length a = length b.
Proof. unfold same_shape. apply Nat.eqb_eq. Qed.

Lemma length_zip_with_Q (f : Q -> Q -> Q) (a b : vec) :
  length a = length b -> length (zip_with_Q f a b) = length a.
Proof.
  revert b. induction a as [|x a IH]; intros [|y b] H; simpl in *; try lia.
  rewrite IH; lia.
Qed.

Lemma elementwise_Ret (f : Q -> Q -> Q) (a b c : vec) :
  elementwise f a b = Ret c ->
  length a = length b /\ c = zip_with_Q f a b /\ length c = length a.
Proof.
  unfold elementwise. destruct (same_shape a b) eqn:E; [|discriminate].
  intros [= <-]. apply same_shape_length in E.
  auto using length_zip_with_Q.
Qed.

Lemma elementwise_same (f : Q -> Q -> Q) (a b : vec) :
  length a = length b -> elementwise f a b = Ret (zip_with_Q f a b).
Proof.
  intros H. unfold elementwise.
  apply same_shape_length in H. now rewrite H.
Qed.

Lemma dot_Ret (a b : vec) (c : Q) : dot a b = Ret c -> length a = length b.
Proof.
  unfold dot. destruct (same_shape a b) eqn:E; [|discriminate].
  intros _. now apply same_shape_length.
Qed.

Lemma array_equal_sym (a b : vec) : array_equal a b = array_equal b a.
Proof.
  revert b. induction a as [|x a IH]; intros [|y b]; simpl; auto.
  rewrite IH. f_equal.
  destruct (Qeq_bool x y) eqn:E1, (Qeq_bool y x) eqn:E2; auto.
  - apply Qeq_bool_iff in E1. symmetry in E1. apply Qeq_bool_iff in E1. congruence.
  - apply Qeq_bool_iff in E2. symmetry in E2. apply Qeq_bool_iff in E2. congruence.
Qed.

Lemma array_equal_trans (a b c : vec) :
  array_equal a b = true -> array_equal b c = true -> array_equal a c = true.
Proof.
  revert b c. induction a as [|x a IH]; intros [|y b] [|z c]; simpl; auto;
    try discriminate.
  rewrite !andb_true_iff. intros [H1 H2] [H3 H4]. split; [|eauto].
  apply Qeq_bool_iff in H1, H3. apply Qeq_bool_iff. now rewrite H1.
Qed.

Lemma array_equal_refl (a : vec) : array_equal a a = true.
Proof.
  induction a as [|x a IH]; simpl; auto.
  rewrite IH, andb_true_r. now apply Qeq_bool_iff.
Qed.


(** ** Stepping through monadic code *)

Lemma bind_Ret {S A B : Type} (m : M S A) (k : A -> M S B) (s s' : S) (b : B) :
  (m ≫= k) s = Ret (b, s') ->
  exists a s1, m s = Ret (a, s1) /\ k a s1 = Ret (b, s').
Proof.
  unfold mbind, M_bind. destruct (m s) as [[a s1]|e]; [eauto | discriminate].
Qed.

Lemma bind_step {S A B : Type} (m : M S A) (k : A -> M S B) (s s1 : S) (a : A) :
  m s = Ret (a, s1) -> (m ≫= k) s = k a s1.
Proof. unfold mbind, M_bind. now intros ->. Qed.

Lemma lift_Ret {S A : Type} (r : result A) (s s' : S) (a : A) :
  lift r s = Ret (a, s') -> r = Ret a /\ s' = s.
Proof. unfold lift. destruct r; [intros [= -> ->]; auto | discriminate]. Qed.

Lemma result_bind_Ret {A B : Type} (m : result A) (k : A -> result B) (b : B) :
  m ≫= k = Ret b -> exists a, m = Ret a /\ k a = Ret b.
Proof. destruct m; [eauto | discriminate]. Qed.

Lemma result_bind_step {A B : Type} (a : A) (k : A -> result B) : Ret a ≫= k = k a.
Proof. reflexivity. Qed.

Section LagrangianFacts.

Import LagrangianBoxConstrainedQuadratic.

Variable sqrt : Q -> Q.

Lemma read_Ret (l : loc) (s s' : state) (a : vec) :
  read l s = Ret (a, s') -> heap s !! l = Some a /\ s' = s.
Proof.
  unfold read. destruct (heap s !! l); [intros [= -> ->]; auto | discriminate].
Qed.

Lemma read_Some (l : loc) (s : state) (a : vec) :
  heap s !! l = Some a -> read l s = Ret (a, s).
Proof. unfold read. now intros ->. Qed.

(** A memo hit leaves the state alone and hands out [last_x]. *)
Lemma memo_lookup_Ret (lam : vec) (s s' : state) (r : option loc) :
  memo_lookup lam s = Ret (r, s') ->
  s' = s /\
  match r with
  | Some lx =>
      exists l0 lam0, last_lmbda (self s) = Some l0 /\ heap s !! l0 = Some lam0 /\
                      array_equal lam lam0 = true /\ last_x (self s) = Some lx
  | None => True
  end.
Proof.
  unfold memo_lookup, array_equal_ref, get. intros H.
  apply bind_Ret in H as (s0 & s1 & [= <- <-] & H).
  apply bind_Ret in H as (same & s2 & H1 & H).
  destruct (last_lmbda (self s)) as [l0|] eqn:El.
  - apply bind_Ret in H1 as (lam0 & s3 & Hr & [= <- <-]).
    apply read_Ret in Hr as [Hr ->].
    destruct (array_equal lam lam0) eqn:Eq.
    + destruct (last_x (self s)) as [lx|] eqn:Ex; [|discriminate].
      injection H as <- <-. split; [auto|]. exists l0, lam0. auto.
    + injection H as <- <-. auto.
  - injection H1 as <- <-. injection H as <- <-. auto.
Qed.

Lemma memo_lookup_hit (lam lam0 : vec) (s : state) (l0 lx : loc) :
  last_lmbda (self s) = Some l0 -> heap s !! l0 = Some lam0 ->
  array_equal lam lam0 = true -> last_x (self s) = Some lx ->
  memo_lookup lam s = Ret (Some lx, s).
Proof.
  intros Hl Hh He Hx. unfold memo_lookup, array_equal_ref, get, mbind, M_bind, read.
  rewrite Hl. rewrite Hh. simpl. rewrite He, Hx. reflexivity.
Qed.

(** What one call of [cholesky_solve] does: it factorizes its first
    argument and solves twice. *)
Lemma cholesky_solve_Ret (A : mat) (b x : vec) (s s' : state) :
  cholesky_solve sqrt A b s = Ret (x, s') ->
  exists L' y,
    cholesky sqrt A = Ret L' /\ solve L' b = Ret y /\
    solve (transpose L') y = Ret x /\
    self s' = self s /\ heap s' = heap s /\
    trace s' = trace s ++ [Factorize A; Solve L' b; Solve (transpose L') y].
Proof.
  unfold cholesky_solve, np_linalg_cholesky, np_linalg_solve, log. intros H.
  apply bind_Ret in H as (L' & s1 & H1 & H).
  apply bind_Ret in H1 as ([] & s0 & [= <-] & H1).
  apply lift_Ret in H1 as [HL ->].
  apply bind_Ret in H as (y & s2 & H2 & H).
  apply bind_Ret in H2 as ([] & s3 & [= <-] & H2).
  apply lift_Ret in H2 as [Hy ->].
  apply bind_Ret in H as ([] & s4 & [= <-] & H).
  apply lift_Ret in H as [Hx ->].
  exists L', y. simpl. rewrite <- !app_assoc. auto 10.
Qed.

Lemma solve_and_memoize_Ret (l lx : loc) (ql : vec) (s s' : state) :
  solve_and_memoize sqrt l ql s = Ret (lx, s') ->
  exists x L' y,
    lx = length (heap s) /\ heap s' = heap s ++ [x] /\
    self s' = set_memo l lx (self s) /\
    trace s' = trace s ++ [Factorize (L (self s)); Solve L' (vneg ql);
                           Solve (transpose L') y] /\
    cholesky sqrt (L (self s)) = Ret L' /\ solve L' (vneg ql) = Ret y /\
    solve (transpose L') y = Ret x.
Proof.
  unfold solve_and_memoize, get, alloc, modify. intros H.
  apply bind_Ret in H as (s0 & s1 & [= <- <-] & H).
  apply bind_Ret in H as (x & s2 & Hc & H).
  apply bind_Ret in H as (lx' & s3 & [= <- <-] & H).
  apply bind_Ret in H as ([] & s4 & [= <-] & [= <- <-]).
  apply cholesky_solve_Ret in Hc as (L' & y & HL & Hy & Hx & Hs & Hh & Ht).
  exists x, L', y. simpl. rewrite Hh, Hs. auto 10.
Qed.

(** The two ways [function] can return: on the memo entry, with the state
    untouched, or after a solve that becomes the memo entry. *)
Lemma function_Ret (l : loc) (s s1 : state) (val : Q) :
  function sqrt l s = Ret (val, s1) ->
  exists lam lmbda_p lmbda_n ql lx x,
    heap s !! l = Some lam /\ split2 lam = Ret (lmbda_p, lmbda_n) /\
    shifted_q (q_ (self s)) lmbda_p lmbda_n = Ret ql /\
    heap s1 !! lx = Some x /\ last_x (self s1) = Some lx /\
    dual_value (self s) ql lmbda_p x = Ret val /\
    ((s1 = s /\ memo_lookup lam s = Ret (Some lx, s)) \/
     (memo_lookup lam s = Ret (None, s) /\
      solve_and_memoize sqrt l ql s = Ret (lx, s1))).
Proof.
  unfold function. intros H.
  apply bind_Ret in H as (lam & s0 & Hr & H). apply read_Ret in Hr as [Hl ->].
  apply bind_Ret in H as ([lmbda_p lmbda_n] & s0 & Hs & H).
  apply lift_Ret in Hs as [Hs ->].
  apply bind_Ret in H as (s0 & s2 & [= <- <-] & H).
  apply bind_Ret in H as (ql & s0 & Hq & H). apply lift_Ret in Hq as [Hq ->].
  apply bind_Ret in H as (hit & s0 & Hm & H).
  pose proof Hm as Hm'. apply memo_lookup_Ret in Hm' as [-> Hhit].
  apply bind_Ret in H as (lx & s2 & Hlx & H).
  apply bind_Ret in H as (x & s3 & Hx & H). apply read_Ret in Hx as [Hx ->].
  apply lift_Ret in H as [Hv ->].
  exists lam, lmbda_p, lmbda_n, ql, lx, x.
  destruct hit as [lx0|].
  - injection Hlx as <- <-. destruct Hhit as (l0 & lam0 & _ & _ & _ & Hlast).
    auto 10.
  - pose proof Hlx as Hlx'.
    apply solve_and_memoize_Ret in Hlx' as (x' & L' & y & -> & Hh & Hself & _).
    rewrite Hself. simpl. auto 10.
Qed.

Lemma shifted_q_length (q lmbda_p lmbda_n ql : vec) :
  shifted_q q lmbda_p lmbda_n = Ret ql ->
  length ql = length lmbda_p /\ length q = length lmbda_p.
Proof.
  unfold shifted_q. intros H. apply result_bind_Ret in H as (a & Ha & H).
  apply elementwise_Ret in Ha as (H1 & _ & H2).
  apply elementwise_Ret in H as (H3 & _ & H4). lia.
Qed.

(** When the dual value can be computed, the inner point has as many
    components as the box. *)
Lemma dual_value_length (o : object) (ql lmbda_p x : vec) (val : Q) :
  dual_value o ql lmbda_p x = Ret val -> length ql = length lmbda_p ->
  length x = length (ub o).
Proof.
  unfold dual_value. intros H Hq.
  apply result_bind_Ret in H as (xQ & _ & H).
  apply result_bind_Ret in H as (w & Hw & H).
  apply result_bind_Ret in H as (wx & Hwx & H).
  apply result_bind_Ret in H as (lu & Hlu & _).
  apply elementwise_Ret in Hw as (H1 & _ & H2).
  apply dot_Ret in Hwx, Hlu. lia.
Qed.

(** The second half of [jacobian], step by step. *)
Lemma project_and_record_eq (lx : loc) (x : vec) (s : state) (v : Q) :
  length x = length (ub (self s)) ->
  Quadratic.function (primal (self s)) (project (ub (self s)) x) = Ret v ->
  project_and_record lx x s =
  Ret (tt, {| self := if xlt (Fin v) (primal_f_x (self s))
                      then set_primal lx (Fin (- v)) (self s) else self s;
              heap := <[lx := project (ub (self s)) x]>
                        (<[lx := clip_below x]> (heap s));
              trace := trace s |}).
Proof.
  intros Hlen Hv.
  unfold project_and_record, get, write, modify, mbind, M_bind. simpl.
  assert (Hs : same_shape (clip_below x) (ub (self s)) = true).
  { apply same_shape_length. unfold clip_below. now rewrite length_map. }
  rewrite Hs. simpl. rewrite Hv. simpl.
  destruct (xlt (Fin v) (primal_f_x (self s))); reflexivity.
Qed.

Lemma project_and_record_Ret (lx : loc) (x : vec) (s s' : state) :
  project_and_record lx x s = Ret (tt, s') ->
  exists v,
    length x = length (ub (self s)) /\
    Quadratic.function (primal (self s)) (project (ub (self s)) x) = Ret v /\
    s' = {| self := if xlt (Fin v) (primal_f_x (self s))
                    then set_primal lx (Fin (- v)) (self s) else self s;
            heap := <[lx := project (ub (self s)) x]>
                      (<[lx := clip_below x]> (heap s));
            trace := trace s |}.
Proof.
  intros H. pose proof H as H0.
  unfold project_and_record, get, write, modify, mbind, M_bind in H. simpl in H.
  destruct (same_shape (clip_below x) (ub (self s))) eqn:Hs; [|discriminate].
  simpl in H.
  destruct (Quadratic.function (primal (self s)) (project (ub (self s)) x))
    as [v|] eqn:Hv; [|discriminate].
  apply same_shape_length in Hs. unfold clip_below in Hs. rewrite length_map in Hs.
  exists v. split; [auto|]. split; [auto|].
  rewrite (project_and_record_eq lx x s v Hs Hv) in H0. congruence.
Qed.

(** C5. When [jacobian] is called on a [lmbda] that equals, component by
    component, the [lmbda] of the call of [function] just before it, it
    takes the inner point [x] from the memo entry: the object [last_x]
    refers to is read, the returned gradient is [(ub - x, x)] for that [x],
    and numpy is asked for no factorization and no solve (the trace does
    not grow).  The call returns whenever the primal objective can be
    evaluated at the projection of [x]. *)
Theorem jacobian_after_function_reuses_memo
    (s s1 : state) (l l' : loc) (val : Q) (lam lam' : vec) :
  function sqrt l s = Ret (val, s1) ->
  heap s !! l = Some lam ->
  heap s1 !! l' = Some lam' ->
  array_equal lam' lam = true ->
  exists lx x d,
    last_x (self s1) = Some lx /\ heap s1 !! lx = Some x /\
    vsub (ub (self s1)) x = Ret d /\
    forall v,
      Quadratic.function (primal (self s1)) (project (ub (self s1)) x) = Ret v ->
      exists s2,
        jacobian sqrt l' s1 = Ret (hstack d x, s2) /\
        trace s2 = trace s1 /\ last_x (self s2) = Some lx.
Proof.
  intros Hf Hl Hl' Heq.
  apply function_Ret in Hf
    as (lam0 & lmbda_p & lmbda_n & ql & lx & x & Hl0 & _ & Hq & Hx & Hlast & Hv & Hcase).
  assert (lam0 = lam) as -> by congruence.
  apply shifted_q_length in Hq as [Hq _].
  pose proof (dual_value_length _ _ _ _ _ Hv Hq) as Hlen.
  assert (Hub : ub (self s1) = ub (self s)).
  { destruct Hcase as [[-> _] | [_ Hm]]; [reflexivity|].
    apply solve_and_memoize_Ret in Hm as (? & ? & ? & _ & _ & -> & _). reflexivity. }
  assert (Hmemo : memo_lookup lam' s1 = Ret (Some lx, s1)).
  { destruct Hcase as [[-> Hm] | [_ Hm]].
    - apply memo_lookup_Ret in Hm as (_ & l0 & lam1 & H1 & H2 & H3 & H4).
      eapply memo_lookup_hit; eauto using array_equal_trans.
    - apply solve_and_memoize_Ret in Hm
        as (x' & L' & y & -> & Hh & Hself & _).
      eapply (memo_lookup_hit lam' lam s1 l); eauto.
      + rewrite Hself. reflexivity.
      + rewrite Hh. rewrite lookup_app_l; [assumption|].
        eapply lookup_lt_Some; eauto. }
  rewrite <- Hub in Hlen.
  exists lx, x, (zip_with_Q Qminus (ub (self s1)) x).
  split; [assumption|]. split; [assumption|].
  split; [apply elementwise_same; lia|].
  intros v Hprim.
  eexists. split; [|split].
  - unfold jacobian.
    rewrite (bind_step _ _ _ _ _ (read_Some _ _ _ Hl')).
    rewrite (bind_step _ _ _ _ _ Hmemo).
    rewrite (bind_step (mret lx) _ s1 s1 lx eq_refl).
    rewrite (bind_step _ _ _ _ _ (read_Some _ _ _ Hx)).
    rewrite (bind_step get _ s1 s1 s1 eq_refl).
    unfold vsub. rewrite (elementwise_same Qminus); [|lia].
    rewrite (bind_step (lift (Ret _)) _ s1 s1 _ eq_refl).
    rewrite (bind_step _ _ _ _ _ (project_and_record_eq lx x s1 v Hlen Hprim)).
    reflexivity.
  - reflexivity.
  - simpl. destruct (xlt _ _); simpl; assumption.
Qed.

(** *** Projection on the box *)

Lemma length_clip_below (x : vec) : length (clip_below x) = length x.
Proof. unfold clip_below. apply length_map. Qed.

Lemma length_project (u x : vec) :
  length x = length u -> length (project u x) = length x.
Proof.
  intros H. unfold project, clip_above.
  rewrite length_zip_with_Q; rewrite length_clip_below; auto.
Qed.

Lemma clip_component (xi ui : Q) :
  0 <= ui ->
  let c := (if Qlt_bool ui (if Qlt_bool xi 0 then 0 else xi) then ui
            else if Qlt_bool xi 0 then 0 else xi) in
  Qlt_bool c 0 = false /\ Qlt_bool ui c = false.
Proof.
  intros Hu. simpl.
  destruct (Qlt_bool xi 0) eqn:E1.
  - destruct (Qlt_bool ui 0) eqn:E2.
    + apply Qlt_bool_iff in E2. lra.
    + split; [|assumption]. apply not_true_is_false. rewrite Qlt_bool_iff. lra.
  - destruct (Qlt_bool ui xi) eqn:E2.
    + split; apply not_true_is_false; rewrite Qlt_bool_iff; lra.
    + auto.
Qed.

(** On a box without negative bounds a projected point is left as it is,
    by either step of the projection. *)
Lemma project_fixed (u x : vec) :
  Forall (Qle 0) u ->
  clip_below (project u x) = project u x /\
  project u (project u x) = project u x.
Proof.
  intros Hu. revert x. induction Hu as [|ui u Hui Hu IH]; intros [|xi x];
    try (split; reflexivity).
  destruct (IH x) as [IH1 IH2].
  destruct (clip_component xi ui Hui) as [H1 H2].
  unfold project, clip_above, clip_below in *. simpl in *.
  rewrite H1. split.
  - f_equal. exact IH1.
  - rewrite H2. f_equal. exact IH2.
Qed.

(** The two ways [jacobian] gets its inner point, and what follows. *)
Lemma jacobian_Ret (l : loc) (s s1 : state) (g : vec) :
  jacobian sqrt l s = Ret (g, s1) ->
  exists lam lx x d s_mid,
    heap s !! l = Some lam /\
    ((s_mid = s /\ memo_lookup lam s = Ret (Some lx, s)) \/
     (memo_lookup lam s = Ret (None, s) /\
      exists lmbda_p lmbda_n ql,
        split2 lam = Ret (lmbda_p, lmbda_n) /\
        shifted_q (q_ (self s)) lmbda_p lmbda_n = Ret ql /\
        solve_and_memoize sqrt l ql s = Ret (lx, s_mid))) /\
    heap s_mid !! lx = Some x /\
    vsub (ub (self s_mid)) x = Ret d /\ g = hstack d x /\
    project_and_record lx x s_mid = Ret (tt, s1).
Proof.
  unfold jacobian. intros H.
  apply bind_Ret in H as (lam & t1 & Hr & H). apply read_Ret in Hr as [Hl ->].
  apply bind_Ret in H as (hit & t2 & Hm & H).
  pose proof Hm as Hm'. apply memo_lookup_Ret in Hm' as [-> Hhit].
  apply bind_Ret in H as (lx & s_mid & Hlx & H).
  apply bind_Ret in H as (x & t3 & Hx & H). apply read_Ret in Hx as [Hx ->].
  apply bind_Ret in H as (t4 & t5 & [= <- <-] & H).
  apply bind_Ret in H as (d & t6 & Hd & H). apply lift_Ret in Hd as [Hd ->].
  apply bind_Ret in H as ([] & t7 & Hp & [= <- <-]).
  exists lam, lx, x, d, s_mid.
  split; [assumption|]. split; [|auto].
  destruct hit as [lx0|].
  - injection Hlx as <- <-. auto.
  - right. split; [assumption|].
    apply bind_Ret in Hlx as ([lmbda_p lmbda_n] & u1 & Hs & Hlx).
    apply lift_Ret in Hs as [Hs ->].
    apply bind_Ret in Hlx as (u2 & u3 & [= <- <-] & Hlx).
    apply bind_Ret in Hlx as (ql & u4 & Hq & Hlx). apply lift_Ret in Hq as [Hq ->].
    eauto 10.
Qed.

(** On a box without negative bounds the projection lands in the box, and
    it leaves a point of the box as it is. *)
Lemma project_box_facts (u x : vec) :
  Forall (Qle 0) u -> length x = length u ->
  Box.in_box u (project u x) /\ (Box.in_box u x -> project u x = x).
Proof.
  intros Hu. revert x. induction Hu as [|ui u Hui Hu IH]; intros [|xi x] Hlen;
    try discriminate.
  - split; [constructor | reflexivity].
  - injection Hlen as Hlen. destruct (IH x Hlen) as [IH1 IH2].
    unfold Box.in_box, project, clip_above, clip_below in *. simpl. split.
    + constructor; [|exact IH1].
      destruct (Qlt_bool xi 0) eqn:E1.
      * destruct (Qlt_bool ui 0) eqn:E2; [apply Qlt_bool_iff in E2; lra | lra].
      * apply not_true_iff_false in E1. rewrite Qlt_bool_iff in E1.
        destruct (Qlt_bool ui xi) eqn:E2; [lra|].
        apply not_true_iff_false in E2. rewrite Qlt_bool_iff in E2. lra.
    + intros Hb. inversion Hb as [|? ? ? ? [H0 H1] Hb']; subst.
      assert (Qlt_bool xi 0 = false) as ->.
      { apply not_true_iff_false. rewrite Qlt_bool_iff. lra. }
      assert (Qlt_bool ui xi = false) as ->.
      { apply not_true_iff_false. rewrite Qlt_bool_iff. lra. }
      f_equal. apply IH2. exact Hb'.
Qed.

(** C8. [jacobian] projects the inner point [x] on the box by assigning
    into the array that [last_x] refers to.  So after a call of [jacobian]
    the memo entry holds the projection [px] of [x], a point of the box
    [[0, ub]].  A later [jacobian] at the same [lmbda], be it the same array
    or another array with the same components, returns [(ub - px, px)], and
    a later [function] there computes the dual value at [px]; neither solves
    the linear system again.  On a memo miss [x] is the output of
    [cholesky_solve]. *)
Theorem jacobian_leaves_projection_in_memo
    (s s1 : state) (l : loc) (lam g : vec) :
  well_formed s ->
  last_x (self s) <> Some l ->
  heap s !! l = Some lam ->
  jacobian sqrt l s = Ret (g, s1) ->
  exists lx x d d' s2,
    let px := project (ub (self s)) x in
    vsub (ub (self s)) x = Ret d /\ g = hstack d x /\
    (memo_lookup lam s = Ret (None, s) ->
     exists lmbda_p lmbda_n ql L' y,
       split2 lam = Ret (lmbda_p, lmbda_n) /\
       shifted_q (q_ (self s)) lmbda_p lmbda_n = Ret ql /\
       cholesky sqrt (L (self s)) = Ret L' /\ solve L' (vneg ql) = Ret y /\
       solve (transpose L') y = Ret x) /\
    last_x (self s1) = Some lx /\ heap s1 !! lx = Some px /\
    Box.in_box (ub (self s)) px /\
    heap s1 !! l = Some lam /\
    vsub (ub (self s)) px = Ret d' /\
    forall (l' : loc) (lam' : vec),
      heap s1 !! l' = Some lam' -> array_equal lam' lam = true ->
      jacobian sqrt l' s1 = Ret (hstack d' px, s2) /\ trace s2 = trace s1 /\
      function sqrt l' s1 =
        lift ('(lmbda_p, lmbda_n) ← split2 lam';
              ql ← shifted_q (q_ (self s1)) lmbda_p lmbda_n;
              dual_value (self s1) ql lmbda_p px) s1.
Proof.
  intros [Hub Hdist] Hnl Hl Hj.
  apply jacobian_Ret in Hj as (lam0 & lx & x & d & s_mid & Hl0 & Hcase & Hx & Hd & -> & Hp).
  assert (lam0 = lam) as -> by congruence.
  apply project_and_record_Ret in Hp as (v & Hlen & Hv & ->).
  (* what the first half of the call leaves behind *)
  assert (Hmid : ub (self s_mid) = ub (self s) /\ primal (self s_mid) = primal (self s) /\
                 q_ (self s_mid) = q_ (self s) /\
                 last_x (self s_mid) = Some lx /\ heap s_mid !! l = Some lam /\
                 lx <> l /\
                 exists l1 lam1, last_lmbda (self s_mid) = Some l1 /\
                                 heap s_mid !! l1 = Some lam1 /\ l1 <> lx /\
                                 array_equal lam lam1 = true).
  { destruct Hcase as [[-> Hm] | [_ (lp & ln & ql & _ & _ & Hm)]].
    - apply memo_lookup_Ret in Hm as (_ & l1 & lam1 & H1 & H2 & H3 & H4).
      repeat split; auto; [congruence|].
      exists l1, lam1. repeat split; eauto.
    - apply solve_and_memoize_Ret in Hm as (x' & L' & y & -> & Hh & Hself & _).
      pose proof (lookup_lt_Some _ _ _ Hl) as Hlt.
      rewrite Hself, Hh. simpl. repeat split; auto.
      + rewrite lookup_app_l; auto.
      + lia.
      + exists l, lam. rewrite lookup_app_l by auto.
        repeat split; auto using array_equal_refl. lia. }
  destruct Hmid as (Eub & Eprim & Eq & Hlast & Hlmid & Hne & l1 & lam1 & Hl1 & Hh1 & Hne1 & Heq1).
  rewrite Eub in *. rewrite Eprim in *.
  set (px := project (ub (self s)) x) in *.
  set (s1 := {| self := if xlt (Fin v) (primal_f_x (self s_mid))
                        then set_primal lx (Fin (- v)) (self s_mid) else self s_mid;
                heap := <[lx := px]> (<[lx := clip_below x]> (heap s_mid));
                trace := trace s_mid |}).
  pose proof (lookup_lt_Some _ _ _ Hx) as Hlx.
  assert (Hpx : heap s1 !! lx = Some px).
  { simpl. apply list_lookup_insert_eq. now rewrite length_insert. }
  assert (Hother : forall k a, k <> lx -> heap s_mid !! k = Some a -> heap s1 !! k = Some a).
  { intros k a Hk Ha. simpl. rewrite !list_lookup_insert_ne by auto. exact Ha. }
  assert (Hfields : ub (self s1) = ub (self s) /\ primal (self s1) = primal (self s) /\
                    q_ (self s1) = q_ (self s) /\
                    last_x (self s1) = Some lx /\ last_lmbda (self s1) = Some l1).
  { simpl. destruct (xlt _ _); simpl; auto. }
  destruct Hfields as (Fub & Fprim & Fq & Flast & Flam).
  assert (Hlenpx : length px = length (ub (self s))).
  { unfold px. rewrite length_project; auto. }
  destruct (project_fixed (ub (self s)) x Hub) as [Hfix1 Hfix2]. fold px in Hfix1, Hfix2.
  assert (Hmemo : forall lam', array_equal lam' lam = true ->
                     memo_lookup lam' s1 = Ret (Some lx, s1)).
  { intros lam' He. eapply memo_lookup_hit; eauto.
    eapply array_equal_trans; eauto. }
  exists lx, x, d, (zip_with_Q Qminus (ub (self s)) px).
  eexists.
  split; [assumption|]. split; [reflexivity|]. split.
  { intros Hmiss. destruct Hcase as [[_ Hm] | [_ (lp & ln & ql & Hs & Hq & Hm)]].
    - congruence.
    - apply solve_and_memoize_Ret in Hm as (x' & L' & y & -> & Hh & _ & _ & HL & Hy & Hx').
      rewrite Hh in Hx. rewrite lookup_app_r in Hx by lia.
      rewrite Nat.sub_diag in Hx. injection Hx as ->.
      exists lp, ln, ql, L', y. auto. }
  split; [assumption|]. split; [assumption|].
  split; [apply (project_box_facts (ub (self s)) x Hub); lia|].
  split; [apply Hother; auto|].
  split; [apply elementwise_same; lia|].
  intros l' lam' Hl' He'.
  split; [|split].
  - unfold jacobian.
    rewrite (bind_step _ _ _ _ _ (read_Some _ _ _ Hl')).
    rewrite (bind_step _ _ _ _ _ (Hmemo lam' He')).
    rewrite (bind_step (mret lx) _ s1 s1 lx eq_refl).
    rewrite (bind_step _ _ _ _ _ (read_Some _ _ _ Hpx)).
    rewrite (bind_step get _ s1 s1 s1 eq_refl).
    rewrite Fub. unfold vsub. rewrite (elementwise_same Qminus) by lia.
    rewrite (bind_step (lift (Ret _)) _ s1 s1 _ eq_refl).
    assert (Hlen' : length px = length (ub (self s1))) by (rewrite Fub; auto).
    assert (Hv' : Quadratic.function (primal (self s1)) (project (ub (self s1)) px) = Ret v).
    { rewrite Fub, Fprim, Hfix2. exact Hv. }
    rewrite (bind_step _ _ _ _ _ (project_and_record_eq lx px s1 v Hlen' Hv')).
    reflexivity.
  - reflexivity.
  - unfold function.
    rewrite (bind_step _ _ _ _ _ (read_Some _ _ _ Hl')).
    destruct (split2 lam') as [[lmbda_p lmbda_n]|e]; [|reflexivity].
    rewrite (bind_step (lift (Ret _)) _ s1 s1 _ eq_refl).
    rewrite (bind_step get _ s1 s1 s1 eq_refl).
    rewrite result_bind_step.
    destruct (shifted_q (q_ (self s1)) lmbda_p lmbda_n) as [ql|e] eqn:Hq;
      [|reflexivity].
    rewrite (bind_step (lift (Ret _)) _ s1 s1 _ eq_refl).
    rewrite (bind_step _ _ _ _ _ (Hmemo lam' He')).
    rewrite (bind_step (mret lx) _ s1 s1 lx eq_refl).
    rewrite (bind_step _ _ _ _ _ (read_Some _ _ _ Hpx)).
    reflexivity.
Qed.

End LagrangianFacts.

Section LagrangianInvariant.

Import LagrangianBoxConstrainedQuadratic.

Variable sqrt : Q -> Q.
Variable nearest_posdef : mat -> mat.

Lemma existsb_negative_false (u : vec) :
  existsb (fun ui => Qlt_bool ui 0) u = false -> Forall (Qle 0) u.
Proof.
  induction u as [|ui u IH]; simpl; [constructor|].
  rewrite orb_false_iff. intros [H1 H2]. constructor; [|auto].
  apply Qnot_lt_le. intros H. apply Qlt_bool_iff in H. congruence.
Qed.

(** [__init__] factorizes once and leaves a well-formed object. *)
Lemma init_well_formed (quad : Quadratic.Quadratic) (u : vec) (h : list vec) (s : state) :
  init sqrt nearest_posdef quad u h = Ret s ->
  well_formed s /\ trace s = [Factorize (Q_ (self s))] /\
  cholesky sqrt (Q_ (self s)) = Ret (L (self s)) /\ heap s = h.
Proof.
  unfold init. intros H. apply result_bind_Ret in H as (L0 & HL & H).
  destruct (existsb _ u) eqn:E; [discriminate|]. injection H as <-. simpl.
  split; [|auto]. split; [now apply existsb_negative_false | discriminate].
Qed.

Lemma function_well_formed (l : loc) (s s1 : state) (val : Q) :
  well_formed s -> function sqrt l s = Ret (val, s1) -> well_formed s1.
Proof.
  intros [Hub Hd] H.
  apply function_Ret in H as (lam & _ & _ & ql & lx & x & Hl & _ & _ & _ & _ & _ & Hcase).
  destruct Hcase as [[-> _] | [_ Hm]]; [split; auto|].
  apply solve_and_memoize_Ret in Hm as (x' & L' & y & -> & _ & Hself & _).
  apply lookup_lt_Some in Hl.
  split; rewrite Hself; simpl; [assumption|].
  intros l0 lx0 [= <-] [= <-]. lia.
Qed.

Lemma jacobian_well_formed (l : loc) (s s1 : state) (g : vec) :
  well_formed s -> jacobian sqrt l s = Ret (g, s1) -> well_formed s1.
Proof.
  intros [Hub Hd] H.
  apply jacobian_Ret in H as (lam & lx & x & d & s_mid & Hl & Hcase & _ & _ & _ & Hp).
  apply project_and_record_Ret in Hp as (v & _ & _ & ->).
  assert (Hmid : well_formed s_mid).
  { destruct Hcase as [[-> _] | [_ (lp & ln & ql & _ & _ & Hm)]]; [split; auto|].
    apply solve_and_memoize_Ret in Hm as (x' & L' & y & -> & _ & Hself & _).
    apply lookup_lt_Some in Hl.
    split; rewrite Hself; simpl; [assumption|].
    intros l0 lx0 [= <-] [= <-]. lia. }
  destruct Hmid as [Hub' Hd'].
  split; simpl; destruct (xlt _ _); simpl; auto.
Qed.

(** An evaluation that misses the memo hands the stored factor [L], not
    [Q], to [cholesky_solve], which factorizes what it is given. *)
Lemma function_miss_factorizes (l : loc) (s s1 : state) (val : Q) (lam : vec) :
  heap s !! l = Some lam ->
  memo_lookup lam s = Ret (None, s) ->
  function sqrt l s = Ret (val, s1) ->
  exists ql L' y x,
    trace s1 = trace s ++ [Factorize (L (self s)); Solve L' (vneg ql);
                           Solve (transpose L') y] /\
    cholesky sqrt (L (self s)) = Ret L' /\
    solve L' (vneg ql) = Ret y /\ solve (transpose L') y = Ret x /\
    last_x (self s1) = Some (length (heap s)) /\
    heap s1 !! length (heap s) = Some x.
Proof.
  intros Hl Hmiss H.
  apply function_Ret in H as (lam0 & _ & _ & ql & lx & x & Hl0 & _ & _ & Hx & Hlast & _ & Hcase).
  assert (lam0 = lam) as -> by congruence.
  destruct Hcase as [[_ Hm] | [_ Hm]]; [congruence|].
  apply solve_and_memoize_Ret in Hm as (x' & L' & y & -> & Hh & _ & Ht & HL & Hy & Hx').
  exists ql, L', y, x'. repeat split; auto.
  rewrite Hh, lookup_app_r by lia. now rewrite Nat.sub_diag.
Qed.

End LagrangianInvariant.

(** C10. [x_star] never returns a point: the operand of its [raise] is an
    array, not an exception, so every call fails with a [TypeError]; and
    [f_star] is plus infinity.  Both relaxations have the same two methods. *)
Theorem x_star_raises_type_error
    (o : LagrangianBoxConstrainedQuadratic.object) (o' : LagrangianLDL.object) :
  LagrangianBoxConstrainedQuadratic.x_star o = Raise TypeError /\
  LagrangianBoxConstrainedQuadratic.f_star o = PInf /\
  LagrangianLDL.x_star o' = Raise TypeError /\
  LagrangianLDL.f_star o' = PInf.
Proof. repeat split. Qed.

(** ** The relaxations on concrete problems *)

Section LagrangianExamples.

Import LagrangianBoxConstrainedQuadratic Examples.

(** C1, on [Q = diag(16, 81)], [q = 0], [ub = (1, 1)] and
    [lmbda = (0, 0, 16, 81)], for which [Q x = -(q + lmbda_p - lmbda_n)] has
    the solution [x = (1, 1)].  The constructor factorizes [Q] into
    [L = diag(4, 9)].  The first evaluation of [function] then asks numpy for
    a second factorization, of [L], and the inner point it computes and
    memoizes is [(4, 9)], the solution of [L x = (16, 81)]. *)
Theorem function_factorizes_the_stored_factor :
  exists s0 val s1 x b,
    init exact_sqrt id quad_diag [1; 1] [[0; 0; 16; 81]] = Ret s0 /\
    trace s0 = [Factorize [[16; 0]; [0; 81]]] /\
    mat_vec (Q_ (self s0)) [1; 1] = Ret b /\ array_equal b [16; 81] = true /\
    function exact_sqrt 0%nat s0 = Ret (val, s1) /\
    (exists solves, trace s1 = trace s0 ++ Factorize (L (self s0)) :: solves) /\
    last_x (self s1) = Some 1%nat /\ heap s1 !! 1%nat = Some x /\
    array_equal x [4; 9] = true /\ array_equal x [1; 1] = false.
Proof.
  do 5 eexists.
  repeat (split; [vm_compute; reflexivity|]).
  split; [eexists; vm_compute; reflexivity|].
  repeat (split; [vm_compute; reflexivity|]).
  vm_compute; reflexivity.
Qed.

(** C3, on [1/2 x^2] with [ub = 5].  Two calls of [jacobian] produce the
    heuristic points [2] and [1], of primal values [2] and [1/2].  After
    the first call the cached value is [-2]; the second point is better
    than the first but is compared with [-2] and not kept. *)
Theorem cached_primal_value_is_negated :
  exists s0 g1 s1 g2 s2 v1 v2,
    init exact_sqrt id quad_unit [5] [[0; 2]; [0; 1]] = Ret s0 /\
    jacobian exact_sqrt 0%nat s0 = Ret (g1, s1) /\
    jacobian exact_sqrt 1%nat s1 = Ret (g2, s2) /\
    heap s2 !! 2%nat = Some [2] /\ heap s2 !! 3%nat = Some [1] /\
    Quadratic.function quad_unit [2] = Ret v1 /\ v1 == 2 /\
    Quadratic.function quad_unit [1] = Ret v2 /\ v2 == 1 # 2 /\
    primal_f_x (self s1) = Fin (- v1) /\ primal_x (self s1) = ArrayAt 2%nat /\
    primal_f_x (self s2) = Fin (- v1) /\ primal_x (self s2) = ArrayAt 2%nat.
Proof.
  do 7 eexists.
  repeat (split; [vm_compute; reflexivity|]).
  vm_compute; reflexivity.
Qed.

Lemma relaxation_state_init :
  init exact_sqrt id quad_unit [5] [[0; 7]; [0; 1]; [0; 7]] = Ret relaxation_state.
Proof. reflexivity. Qed.

(** [function] at the first array, then [jacobian] at the last one. *)
Lemma jacobian_after_function_reuses_memo_witness :
  let s1 := state_after (function exact_sqrt 0%nat relaxation_state) in
  exists s2,
    jacobian exact_sqrt 2%nat s1 = Ret ([-2; 7], s2) /\ trace s2 = trace s1.
Proof.
  intros s1.
  destruct (jacobian_after_function_reuses_memo exact_sqrt relaxation_state s1
              0%nat 2%nat
              (value_of 0 (function exact_sqrt 0%nat relaxation_state))
              [0; 7] [0; 7])
    as (lx & x & d & Hlx & Hx & Hd & Hj);
    try (vm_compute; reflexivity).
  vm_compute in Hlx. injection Hlx as <-.
  vm_compute in Hx. injection Hx as <-.
  vm_compute in Hd. injection Hd as <-.
  destruct (Hj (25 # 2)) as (s2 & H1 & H2 & _); [vm_compute; reflexivity|].
  exists s2. split; [exact H1 | exact H2].
Defined.

(** [jacobian] at [lmbda = (8, 0, 0, 18)] on the box [[0, 1]^2]: the solve
    gives [x = (-2, 2)], below the box in its first component and above it
    in the second; the memo entry then holds [(0, 1)], and [jacobian] at the
    other array with the same components returns [(1, 0, 0, 1)]. *)
Lemma jacobian_leaves_projection_in_memo_witness :
  exists g s1 s2,
    jacobian exact_sqrt 0%nat plane_state = Ret (g, s1) /\
    Forall2 Qeq g [3; -1; -2; 2] /\
    heap s1 !! 2%nat = Some [0; 1] /\ last_x (self s1) = Some 2%nat /\
    Box.in_box [1; 1] [0; 1] /\
    jacobian exact_sqrt 1%nat s1 = Ret ([1; 0; 0; 1], s2) /\ trace s2 = trace s1.
Proof.
  destruct (jacobian exact_sqrt 0%nat plane_state) as [[g s1]|e] eqn:E;
    [|vm_compute in E; discriminate].
  destruct (jacobian_leaves_projection_in_memo exact_sqrt plane_state s1
              0%nat [8; 0; 0; 18] g)
    as (lx & x & d & d' & s2 & Hd & Hg & _ & Hlast & Hpx & Hbox & _ & Hd' & Hlater).
  - split; [repeat constructor; discriminate | discriminate].
  - discriminate.
  - reflexivity.
  - exact E.
  - vm_compute in E. injection E as <- <-.
    vm_compute in Hlast. injection Hlast as <-.
    apply elementwise_Ret in Hd as (Hlen & -> & _).
    destruct x as [|x0 [|x1 [|x2 x]]]; try discriminate Hlen.
    apply (f_equal (drop 2)) in Hg. vm_compute in Hg. injection Hg as <- <-.
    vm_compute in Hd'. injection Hd' as <-.
    destruct (Hlater 1%nat [8; 0; 0; 18]) as (Hj & Ht & _);
      [reflexivity | reflexivity |].
    do 2 eexists. exists s2.
    split; [reflexivity|].
    split; [repeat (constructor; [vm_compute; reflexivity|]); constructor|].
    split; [exact Hpx|]. split; [reflexivity|].
    split; [exact Hbox|].
    split; [exact Hj | exact Ht].
Defined.

(** The dual value at [lmbda = (0, 7)] before and after a call of
    [jacobian]: [-49/2] at the solution [x = 7] of the linear system, then
    [-45/2] at the projected point [5] that the memo holds. *)
Example function_value_changes_after_jacobian :
  exists v s1 g s2 v' s3,
    function exact_sqrt 0%nat relaxation_state = Ret (v, s1) /\ v == - (49 # 2) /\
    jacobian exact_sqrt 0%nat s1 = Ret (g, s2) /\
    function exact_sqrt 0%nat s2 = Ret (v', s3) /\ v' == - (45 # 2).
Proof.
  do 6 eexists. repeat (split; [vm_compute; reflexivity|]). vm_compute; reflexivity.
Qed.

End LagrangianExamples.

(** ** AcceleratedGradient *)

Section AcceleratedGradientFacts.

Import AcceleratedGradient.

Variable sqrt : Q -> Q.
Variable backtracking_line_search :
  Objective -> vec -> vec -> vec -> vec -> Z -> Z -> Q -> Q -> Q -> Q -> Q -> Q ->
  result line_search_result.
Variable c : config.

(** After the first pass [ng0] is 1 whatever [eps] is, so with a negative
    [eps] the test [ng <= eps * ng0] cannot hold for a norm. *)
Lemma later_iterations_never_optimal (s : locals) (ng : Q) :
  eps c < 0 -> f_eval s <> 1%Z -> 0 <= ng -> stop_test c s ng = false.
Proof.
  intros He Hf Hn. unfold stop_test, scale_ng0.
  apply Z.eqb_neq in Hf. rewrite Hf. simpl.
  apply not_true_is_false. rewrite Qle_bool_iff. lra.
Qed.

(** In the first pass the reference norm is the norm under test itself. *)
Lemma first_iteration_test (s : locals) (ng : Q) :
  eps c < 0 -> f_eval s = 1%Z ->
  stop_test c s ng = Qle_bool ng (- eps c * ng).
Proof.
  intros He Hf. unfold stop_test, scale_ng0. rewrite Hf. simpl.
  apply Qlt_bool_iff in He. rewrite He.
  destruct (Qle_bool ng (eps c * - ng)) eqn:E1, (Qle_bool ng (- eps c * ng)) eqn:E2;
    try reflexivity.
  - apply Qle_bool_iff in E1. apply not_true_iff_false in E2.
    rewrite Qle_bool_iff in E2. exfalso. apply E2. lra.
  - apply Qle_bool_iff in E2. apply not_true_iff_false in E1.
    rewrite Qle_bool_iff in E1. exfalso. apply E1. lra.
Qed.

(** With a line search the variable [xv] is never assigned. *)
Lemma step_size_keeps_xv (s : locals) (x_now g lx lg : vec) (v ng a v2 a2 : Q)
    (fe fe2 : Z) (xv2 : option Q) :
  0 < m1 c ->
  step_size backtracking_line_search c s x_now v ng g fe = Ret (a, v2, lx, lg, fe2, a2, xv2) ->
  xv2 = xv s.
Proof.
  intros Hm. unfold step_size. apply Qlt_bool_iff in Hm. rewrite Hm.
  intros H. apply result_bind_Ret in H as (r & _ & H). now injection H.
Qed.

(** In the monotone version with a line search no pass through the loop
    body reaches its end. *)
Lemma iteration_never_completes (s s' : locals) :
  truthy (mon c) = true -> 0 < m1 c -> xv s = None ->
  iteration sqrt backtracking_line_search c s <> Ret (Continue s').
Proof.
  intros Hmon Hm Hxv H. unfold AcceleratedGradient.iteration in H.
  apply result_bind_Ret in H as (v & _ & H).
  apply result_bind_Ret in H as (g & _ & H).
  apply result_bind_Ret in H as ([x1 pxv1] & _ & H).
  destruct (stop_test c s (norm sqrt g)); [discriminate|].
  destruct (f_eval s + 1 >? max_f_eval c)%Z; [discriminate|].
  apply result_bind_Ret in H as ([[[[[[a v2] lx] lg] fe2] a2] xv2] & Hs & H).
  apply step_size_keeps_xv in Hs; [|assumption]. subst xv2.
  destruct (Qle_bool a (min_a c)); [discriminate|].
  destruct (xle (Fin v2) (m_inf c)); [discriminate|].
  unfold monotone_update in H. rewrite Hmon, Hxv in H. discriminate.
Qed.

(** C9. In the monotone version ([mon] not zero) with a backtracking line
    search ([m1 > 0]), when the first pass through the loop is not stopped
    by the gradient test, the budget, the step size or the unboundedness
    test, it reads [xv], which only the fixed-step branch assigns:
    [minimize] ends with an [UnboundLocalError], a [NameError], and returns
    no point and status. *)
Theorem monotone_line_search_reads_unbound_xv
    (fs : xreal) (v : Q) (g : vec) (r : line_search_result) :
  truthy (mon c) = true ->
  0 < m1 c ->
  lower_bound (f c) = Ret fs ->
  function (f c) (x0 c) = Ret v ->
  jacobian (f c) (x0 c) = Ret g ->
  stop_test c (start c) (norm sqrt g) = false ->
  (2 >? max_f_eval c)%Z = false ->
  backtracking_line_search (f c) (vneg g) (x0 c) (repeat 0 (n c)) (repeat 0 (n c))
    2 (max_f_eval c) (min_a c) v (- norm sqrt g) (Qabs (a_start0 c)) (m1 c) (tau c)
    = Ret r ->
  Qle_bool (ls_a r) (min_a c) = false ->
  xle (Fin (ls_v r)) (m_inf c) = false ->
  forall fuel,
    minimize sqrt backtracking_line_search c (S fuel)
      = Some (Raise (UnboundLocalError "xv")) /\
    is_NameError (UnboundLocalError "xv") = true.
Proof.
  intros Hmon Hm Hfs Hv Hg Hstop Hbud Hls Ha Hinf fuel.
  split; [|reflexivity].
  unfold AcceleratedGradient.minimize. rewrite Hfs. simpl.
  unfold AcceleratedGradient.iteration.
  assert (Hy : y (start c) = x0 c) by reflexivity.
  rewrite Hy, Hv, Hg. rewrite !result_bind_step.
  unfold keep_best. rewrite Hmon.
  assert (Hp : past_xv (start c) = Some PInf) by (unfold start; simpl; now rewrite Hmon).
  rewrite Hp. simpl read_local. rewrite result_bind_step.
  change (xlt (Fin v) PInf) with true. cbv iota. rewrite result_bind_step.
  rewrite Hstop.
  change (f_eval (start c) + 1)%Z with 2%Z. rewrite Hbud.
  unfold step_size. apply Qlt_bool_iff in Hm. rewrite Hm.
  rewrite Hy. change (last_x (start c)) with (repeat 0 (n c)).
  change (last_g (start c)) with (repeat 0 (n c)).
  change (a_start (start c)) with (a_start0 c).
  rewrite Hls. rewrite !result_bind_step.
  rewrite Ha, Hinf.
  unfold monotone_update. rewrite Hmon. reflexivity.
Qed.

End AcceleratedGradientFacts.

Section AcceleratedGradientExamples.

Import AcceleratedGradient Examples.

(** C2, on [1/2 x^2] from [x = 4] with the fixed step [1/2] and
    [eps = -1/2].  The first gradient has norm 4; the second auxiliary point
    is [3/2], where the gradient has norm [3/2 <= 1/2 * 4].  The test of the
    second pass compares with [eps * 1] and fails, and the run ends
    [stopped] on its budget of two evaluations. *)
Theorem relative_test_forgets_first_gradient :
  exists s2 g1 g2 xb,
    iteration exact_sqrt backtracking_line_search relative_config
      (start relative_config) = Ret (Continue s2) /\
    jacobian half_square (y (start relative_config)) = Ret g1 /\
    jacobian half_square (y s2) = Ret g2 /\
    norm exact_sqrt g1 == 4 /\ norm exact_sqrt g2 == 3 # 2 /\
    norm exact_sqrt g2 <= - eps relative_config * norm exact_sqrt g1 /\
    stop_test relative_config s2 (norm exact_sqrt g2) = false /\
    minimize exact_sqrt backtracking_line_search relative_config 5
      = Some (Ret (xb, stopped)) /\
    array_equal xb [2] = true.
Proof.
  do 4 eexists.
  repeat (split; [vm_compute; reflexivity|]).
  split; [vm_compute; discriminate|].
  repeat (split; [vm_compute; reflexivity|]).
  vm_compute; reflexivity.
Qed.

(** [1/2 x^2] from [x = 4], monotone, with the line search of the spec. *)
Lemma monotone_line_search_reads_unbound_xv_witness :
  minimize exact_sqrt backtracking_line_search monotone_config 1
    = Some (Raise (UnboundLocalError "xv")).
Proof.
  refine (proj1 (monotone_line_search_reads_unbound_xv exact_sqrt
                   backtracking_line_search monotone_config
                   (Fin 0) ((1 # 2) * sum_products [4] [4]) [4]
                   {| ls_a := 1; ls_v := (1 # 2) * sum_products [0] [0];
                      ls_last_x := [0]; ls_last_g := [0]; ls_f_eval := 3 |}
                   _ _ _ _ _ _ _ _ _ _ 0%nat));
    reflexivity.
Defined.

End AcceleratedGradientExamples.

(** ** ProximalBundle *)

Section ProximalBundleFacts.

Import ProximalBundle Examples.

(** The first name that line 132 reads is bound nowhere. *)
Lemma line_132_raises : load_globals line_132 = Some (NameError "sdpvar").
Proof. reflexivity. Qed.

(** What the lines before the loop leave in the variables. *)
Lemma start_Ret (sqrt : Q -> Q) (c : config) (f_star : xreal) (ng0 : Q) (s : state) :
  start sqrt c = Ret (f_star, ng0, s) ->
  exists v g F0,
    lower_bound (f c) = Ret f_star /\
    function (f c) (x0 c) = Ret v /\ jacobian (f c) (x0 c) = Ret g /\
    translated_values (columns c) v g (x0 c) = Ret F0 /\
    s = {| x := x0 c; fx := v; G := transposed (columns c) g; F := F0; i := 1 |}.
Proof.
  unfold start. intros H.
  apply result_bind_Ret in H as (fs & Hfs & H).
  apply result_bind_Ret in H as (v & Hv & H).
  apply result_bind_Ret in H as (g & Hg & H).
  apply result_bind_Ret in H as (F0 & HF & H).
  injection H as <- _ <-. exists v, g, F0. auto.
Qed.

(** On one-dimensional arrays of one length, entry [k] of [F] is
    [fx - g_k * x_k]. *)
Lemma translated_values_flat (v : Q) (g p : vec) :
  length g = length p ->
  translated_values false v g p = Ret (Array1 (zip_with_Q (fun gk pk => v - gk * pk) g p)).
Proof.
  intros Hlen. unfold translated_values, np_multiply.
  assert (Hz : forall a b : vec, length a = length b ->
            map (fun t => v - t) (zip_with_Q Qmult a b)
            = zip_with_Q (fun gk pk => v - gk * pk) a b).
  { induction a as [|a0 a IH]; intros [|b0 b] Hab; try discriminate; [reflexivity|].
    injection Hab as Hab. unfold zip_with_Q in *. simpl. f_equal. apply IH, Hab. }
  destruct g as [|g0 [|g1 g]]; destruct p as [|p0 [|p1 p]]; try discriminate;
    try reflexivity.
  rewrite (elementwise_same Qmult) by exact Hlen.
  rewrite result_bind_step. unfold mret, result_ret. f_equal. f_equal.
  apply Hz, Hlen.
Qed.

(** C4.  No run of [minimize] returns a point and a status.  When the
    objective answers [function([])], [function(x)] and [jacobian(x)] at the
    starting point, the run reaches the loop, whose first statement reads
    the name [sdpvar]: the module binds no such name, and the run ends with
    [NameError], whatever the objective, the parameters and the layout.
    Otherwise the exception of the evaluation reaches the caller.  So it is
    for [f(x) = 1/2 x^2] from [x = [4]]. *)
Theorem bundle_minimize_raises_name_error
    (sqrt : Q -> Q) (c : config) (beyond : xreal -> Q -> state -> outcome) :
  minimize sqrt c beyond
    = match start sqrt c with
      | Raise e => Raised (Evaluation e)
      | Ret _ => Raised (NameError "sdpvar")
      end /\
  minimize exact_sqrt (bundle_config half_square) beyond = Raised (NameError "sdpvar") /\
  minimize exact_sqrt (bundle_config no_lower_bound) beyond
    = Raised (Evaluation ValueError).
Proof.
  split; [|split; reflexivity].
  unfold minimize. destruct (start sqrt c) as [[[f_star ng0] s]|e]; reflexivity.
Qed.


(** C7.  The first piece of the bundle is not [f - g . x].  For
    [f(x) = 1/2 ||x||^2] from [x = (3, 4)], where [f = 25/2], [g = (3, 4)]
    and [g . x = 25], line 113 leaves in [F] the array [(7/2, -7/2)] on
    one-dimensional arrays and the square array [((7/2, 1/2), (1/2, -7/2))]
    on columns: [*] is the componentwise product.  No entry is the constant
    [f - g . x = -25/2] of the comment of lines 114-118, and no entry [b] has
    [b + g . x = f].  No piece is appended either: the run raises
    [NameError] at line 132. *)
Theorem first_piece_is_componentwise (beyond : xreal -> Q -> state -> outcome) :
  exists f_star ng0 s s' gx,
    start exact_sqrt (plane_config false) = Ret (f_star, ng0, s) /\
    start exact_sqrt (plane_config true) = Ret (f_star, ng0, s') /\
    fx s = 25 # 2 /\ fx s' = 25 # 2 /\
    G s = Array1 [3; 4] /\ G s' = Array2 [[3; 4]] /\
    F s = Array1 [7 # 2; (-7) # 2] /\
    F s' = Array2 [[7 # 2; 1 # 2]; [1 # 2; (-7) # 2]] /\
    dot [3; 4] (x s) = Ret gx /\ gx == 25 /\ fx s - gx == - (25 # 2) /\
    Forall (fun b => ~ b == fx s - gx /\ ~ b + gx == fx s)
           [7 # 2; (-7) # 2; 1 # 2] /\
    minimize exact_sqrt (plane_config false) beyond = Raised (NameError "sdpvar") /\
    minimize exact_sqrt (plane_config true) beyond = Raised (NameError "sdpvar").
Proof.
  do 5 eexists.
  split; [vm_compute; reflexivity|].
  split; [vm_compute; reflexivity|].
  split; [vm_compute; reflexivity|].
  split; [vm_compute; reflexivity|].
  split; [reflexivity|].
  split; [reflexivity|].
  split; [vm_compute; reflexivity|].
  split; [vm_compute; reflexivity|].
  split; [vm_compute; reflexivity|].
  split; [vm_compute; reflexivity|].
  split; [vm_compute; reflexivity|].
  split; [|split; reflexivity].
  repeat constructor; vm_compute; discriminate.
Qed.

End ProximalBundleFacts.

Section LagrangianLDLFacts.

Import LagrangianLDL Examples.

(** [ldl_solve] asks numpy for three solves with the factors it is given,
    and for no factorization. *)
Lemma ldl_solve_only_solves (Lm Dm : mat) (Pm : list nat) (b x : vec) (s s' : state) :
  ldl_solve (Lm, Dm, Pm) b s = Ret (x, s') ->
  exists bP y w,
    self s' = self s /\
    trace s' = trace s ++ [Solve Lm bP; Solve Dm y; Solve (transpose Lm) w].
Proof.
  unfold ldl_solve, np_linalg_solve, log. intros H.
  apply bind_Ret in H as (bP & t1 & H1 & H). apply lift_Ret in H1 as [_ ->].
  apply bind_Ret in H as (y & t2 & H2 & H).
  apply bind_Ret in H2 as ([] & t3 & [= <-] & H2). apply lift_Ret in H2 as [_ ->].
  apply bind_Ret in H as (w & t4 & H3 & H).
  apply bind_Ret in H3 as ([] & t5 & [= <-] & H3). apply lift_Ret in H3 as [_ ->].
  apply bind_Ret in H as ([] & t6 & [= <-] & H). apply lift_Ret in H as [_ ->].
  exists bP, y, w. simpl. rewrite <- !app_assoc. auto.
Qed.

Lemma relaxed_point_Ret (lmbda lmbda_p ql x : vec) (s s' : state) :
  relaxed_point lmbda s = Ret (lmbda_p, ql, x, s') ->
  self s' = self s /\
  exists bP y w,
    trace s' = trace s ++ [Solve (L (self s)) bP; Solve (D (self s)) y;
                           Solve (transpose (L (self s))) w].
Proof.
  unfold relaxed_point. intros H.
  apply bind_Ret in H as ([lp' ln] & t1 & H1 & H). apply lift_Ret in H1 as [_ ->].
  apply bind_Ret in H as (t2 & t3 & [= <- <-] & H).
  apply bind_Ret in H as (a & t4 & H2 & H). apply lift_Ret in H2 as [_ ->].
  apply bind_Ret in H as (ql' & t5 & H3 & H). apply lift_Ret in H3 as [_ ->].
  apply bind_Ret in H as (x' & t6 & H4 & [= _ _ _ <-]).
  apply ldl_solve_only_solves in H4 as (bP & y & w & Hs & Ht). eauto 10.
Qed.

(** The LDL^T relaxation records a heuristic point the same way: when the
    value [v] is below [primal_value], it stores the point and [-v]. *)
Lemma ldl_jacobian_records_negated_value (lmbda g : vec) (s s' : state) :
  jacobian lmbda s = Ret (g, s') ->
  exists x v,
    Quadratic.function (primal (self s))
      (LagrangianBoxConstrainedQuadratic.project (ub (self s)) x) = Ret v /\
    (xlt (Fin v) (primal_value (self s)) = true ->
     primal_value (self s') = Fin (- v) /\
     primal_solution (self s') =
       Some (LagrangianBoxConstrainedQuadratic.project (ub (self s)) x)) /\
    (xlt (Fin v) (primal_value (self s)) = false ->
     primal_value (self s') = primal_value (self s) /\
     primal_solution (self s') = primal_solution (self s)).
Proof.
  unfold jacobian. intros H.
  apply bind_Ret in H as ([[lp ql] x] & s1 & Hr & H).
  apply relaxed_point_Ret in Hr as [Hs1 _].
  apply bind_Ret in H as (t1 & t2 & [= <- <-] & H).
  apply bind_Ret in H as (d & t3 & Hd & H). apply lift_Ret in Hd as [_ ->].
  apply bind_Ret in H as ([] & t4 & Hshape & H).
  destruct (same_shape _ _); [|discriminate]. injection Hshape as <-.
  apply bind_Ret in H as (v & t5 & Hv & H). apply lift_Ret in Hv as [Hv ->].
  apply bind_Ret in H as ([] & t6 & Hup & [= <- <-]).
  rewrite Hs1 in *. exists x, v. split; [assumption|].
  destruct (xlt (Fin v) (primal_value (self s))) eqn:E; injection Hup as <-;
    split; intros; try discriminate; simpl; rewrite ?Hs1; auto.
Qed.

End LagrangianLDLFacts.

Section LagrangianLDLExamples.

Import LagrangianLDL Examples.

(** The run of C3, on the LDL^T relaxation. *)
Example ldl_cached_primal_value_is_negated :
  exists s0 g1 s1 g2 s2,
    init ldl_unit quad_unit [5] = Ret s0 /\
    jacobian [0; 2] s0 = Ret (g1, s1) /\
    jacobian [0; 1] s1 = Ret (g2, s2) /\
    primal_solution (self s2) = Some [2] /\
    exists v, primal_value (self s2) = Fin v /\ v == - (2).
Proof.
  do 5 eexists. repeat (split; [vm_compute; reflexivity|]).
  eexists. split; vm_compute; reflexivity.
Qed.

End LagrangianLDLExamples.

(** * Further properties of the code *)

(** ** [clip] *)

Section ClipFacts.

Import Utils.

(** X1. When [l <= h], [clip(x, l, h)] lies between [l] and [h], and it is
    [x] itself when [x] already does. *)
Theorem clip_within_bounds (x l h : Q) :
  l <= h ->
  l <= clip x l h /\ clip x l h <= h /\ (l <= x -> x <= h -> clip x l h == x).
Proof.
  intros Hlh. unfold clip, py_max, py_min.
  destruct (Qlt_bool h x) eqn:E1.
  - apply Qlt_bool_iff in E1.
    destruct (Qlt_bool l h) eqn:E2; repeat split; intros; lra.
  - apply not_true_iff_false in E1. rewrite Qlt_bool_iff in E1.
    destruct (Qlt_bool l x) eqn:E2.
    + apply Qlt_bool_iff in E2. repeat split; intros; lra.
    + apply not_true_iff_false in E2. rewrite Qlt_bool_iff in E2.
      repeat split; intros; lra.
Qed.

Lemma clip_within_bounds_witness :
  0 <= clip 7 0 5 /\ clip 7 0 5 <= 5 /\ (0 <= 7 -> 7 <= 5 -> clip 7 0 5 == 7).
Proof. apply (clip_within_bounds 7 0 5). discriminate. Defined.

(** X2. Clipping twice is clipping once, whatever the bounds; and when the
    bounds are crossed ([h < l]) the result is [l] for every [x]. *)
Theorem clip_idempotent_and_crossed (x l h : Q) :
  clip (clip x l h) l h = clip x l h /\ (h < l -> clip x l h = l).
Proof.
  unfold clip, py_max, py_min.
  split; [|intros Hhl];
    destruct (Qlt_bool h x) eqn:E1; destruct (Qlt_bool l h) eqn:E2;
    destruct (Qlt_bool l x) eqn:E3;
    repeat match goal with
           | |- context [Qlt_bool ?a ?b] =>
               is_var a; is_var b; destruct (Qlt_bool a b) eqn:?
           end;
    try reflexivity; exfalso;
    repeat match goal with
           | H : Qlt_bool _ _ = true |- _ => apply Qlt_bool_iff in H
           | H : Qlt_bool _ _ = false |- _ =>
               apply not_true_iff_false in H; rewrite Qlt_bool_iff in H
           end;
    lra.
Qed.

End ClipFacts.

(** ** The box *)

Section BoxFacts.

Import LagrangianBoxConstrainedQuadratic Box.

(** X3. On a box without negative bounds the projection of lines 120-122
    lands in the box, and it leaves a point of the box as it is. *)
Theorem project_in_box (u x : vec) :
  Forall (Qle 0) u -> length x = length u ->
  in_box u (project u x) /\ (in_box u x -> project u x = x).
Proof. apply project_box_facts. Qed.

Lemma project_in_box_witness :
  in_box [5; 1] (project [5; 1] [7; -3]) /\
  (in_box [5; 1] [7; -3] -> project [5; 1] [7; -3] = [7; -3]).
Proof.
  apply (project_in_box [5; 1] [7; -3]); [|reflexivity].
  repeat constructor; discriminate.
Defined.

End BoxFacts.

Section BoxOptimizerFacts.

Import BoxConstrainedQuadraticOptimizer Box.

Lemma half_in_box (u : vec) :
  Forall (Qle 0) u -> in_box u (map (fun ui => ui / 2) u).
Proof.
  unfold in_box. induction 1 as [|ui u Hui Hu IH]; simpl; constructor; auto.
  split.
  - apply Qle_shift_div_l; lra.
  - apply Qle_shift_div_r; lra.
Qed.

(** X4. The constructor of the box-constrained optimizers raises
    [TypeError] for an objective that is not a [Quadratic], before anything
    else.  Otherwise it calls [Optimizer.__init__] with the start [ub / 2],
    and an exception of that call reaches the caller, whatever the bounds.
    When the call returns, a negative bound is a [ValueError]; without one
    (a bound of zero is accepted) the constructor succeeds and sets
    [self.ub].  So whenever the constructor succeeds, the call of the
    superclass returned, no bound is negative and the start [ub / 2] that
    was handed over lies in the box. *)
Theorem box_optimizer_starts_inside {base : Type}
    (optimizer_init : Quadratic.Quadratic -> vec -> Q -> Z -> result base)
    (obj : objective) (u : vec) (e : Q) (m : Z) :
  (forall o, init optimizer_init obj u e m = Ret o ->
     exists quad, obj = QuadraticObjective quad /\
       optimizer_init quad (map (fun ui => ui / 2) u) e m = Ret (super o) /\
       Forall (Qle 0) u /\ ub o = u /\ in_box u (map (fun ui => ui / 2) u)) /\
  (forall quad b, obj = QuadraticObjective quad ->
     optimizer_init quad (map (fun ui => ui / 2) u) e m = Ret b ->
     Forall (Qle 0) u ->
     init optimizer_init obj u e m = Ret {| super := b; ub := u |}) /\
  (forall quad b, obj = QuadraticObjective quad ->
     optimizer_init quad (map (fun ui => ui / 2) u) e m = Ret b ->
     Exists (fun ui => ui < 0) u ->
     init optimizer_init obj u e m = Raise ValueError) /\
  (forall quad ex, obj = QuadraticObjective quad ->
     optimizer_init quad (map (fun ui => ui / 2) u) e m = Raise ex ->
     init optimizer_init obj u e m = Raise ex) /\
  (obj = OtherObjective -> init optimizer_init obj u e m = Raise TypeError).
Proof.
  split; [|split; [|split; [|split]]].
  - intros o H. unfold init in H. destruct obj as [quad|]; [|discriminate].
    apply result_bind_Ret in H as (b & Hb & H).
    destruct (existsb _ u) eqn:E; [discriminate|]. injection H as <-.
    apply existsb_negative_false in E.
    exists quad. simpl. repeat split; auto. now apply half_in_box.
  - intros quad b -> Hb Hu. unfold init. rewrite Hb, result_bind_step.
    destruct (existsb _ u) eqn:E; [|reflexivity].
    apply existsb_exists in E as (ui & Hin & Hneg).
    apply Qlt_bool_iff in Hneg. rewrite Forall_forall in Hu.
    apply list_elem_of_In in Hin. specialize (Hu ui Hin). lra.
  - intros quad b -> Hb Hex. unfold init. rewrite Hb, result_bind_step.
    destruct (existsb _ u) eqn:E; [reflexivity|].
    apply existsb_negative_false in E. rewrite Forall_forall in E.
    apply Exists_exists in Hex as (ui & Hin & Hneg). specialize (E ui Hin). lra.
  - intros quad ex -> Hb. unfold init. rewrite Hb. reflexivity.
  - intros ->. reflexivity.
Qed.

End BoxOptimizerFacts.

Lemma clip_idempotent_and_crossed_witness :
  Utils.clip (Utils.clip 3 5 1) 5 1 = Utils.clip 3 5 1 /\ Utils.clip 3 5 1 = 5.
Proof.
  destruct (clip_idempotent_and_crossed 3 5 1) as [H1 H2].
  split; [exact H1 | apply H2; reflexivity].
Defined.

Lemma box_optimizer_starts_inside_witness :
  let optimizer_init :=
    fun (quad : Quadratic.Quadratic) (x : vec) (e : Q) (m : Z) =>
      if (m <? 0)%Z then Raise ValueError else Ret (x, e, m) in
  BoxConstrainedQuadraticOptimizer.init optimizer_init
    (BoxConstrainedQuadraticOptimizer.QuadraticObjective Examples.quad_diag)
    [5; 0] (1 # 1000000) 1000
  = Ret {| BoxConstrainedQuadraticOptimizer.super :=
             (map (fun ui => ui / 2) [5; 0], 1 # 1000000, 1000%Z);
           BoxConstrainedQuadraticOptimizer.ub := [5; 0] |} /\
  Box.in_box [5; 0] (map (fun ui => ui / 2) [5; 0]).
Proof.
  intros optimizer_init.
  destruct (box_optimizer_starts_inside optimizer_init
              (BoxConstrainedQuadraticOptimizer.QuadraticObjective Examples.quad_diag)
              [5; 0] (1 # 1000000) 1000) as (H1 & H2 & _).
  assert (Ho := H2 Examples.quad_diag _ eq_refl eq_refl).
  assert (Hu : Forall (Qle 0) [5; 0]) by (repeat constructor; discriminate).
  split; [exact (Ho Hu)|].
  destruct (H1 _ (Ho Hu)) as (quad & _ & _ & _ & _ & Hbox). exact Hbox.
Defined.

(** ** The memoized relaxation *)

Section RelaxationFacts.

Import LagrangianBoxConstrainedQuadratic Box.

Variable sqrt : Q -> Q.

Lemma dual_value_fields (o o' : object) (ql lmbda_p x : vec) :
  Q_ o' = Q_ o -> ub o' = ub o ->
  dual_value o' ql lmbda_p x = dual_value o ql lmbda_p x.
Proof. intros H1 H2. unfold dual_value. now rewrite H1, H2. Qed.

(** What [function] leaves of the state it was called in. *)
Lemma function_frame_facts (l : loc) (s s1 : state) (val : Q) :
  function sqrt l s = Ret (val, s1) ->
  heap s `prefix_of` heap s1 /\ trace s `prefix_of` trace s1 /\
  Q_ (self s1) = Q_ (self s) /\ q_ (self s1) = q_ (self s) /\
  L (self s1) = L (self s) /\ ub (self s1) = ub (self s) /\
  primal (self s1) = primal (self s) /\
  primal_x (self s1) = primal_x (self s) /\
  primal_f_x (self s1) = primal_f_x (self s).
Proof.
  intros H.
  apply function_Ret in H as (lam & lp & ln & ql & lx & x & _ & _ & _ & _ & _ & _ & Hcase).
  destruct Hcase as [[-> _] | [_ Hm]]; [repeat split; reflexivity|].
  apply solve_and_memoize_Ret in Hm as (x' & L' & y & _ & Hh & Hself & Ht & _).
  rewrite Hh, Hself, Ht. simpl.
  repeat split; try reflexivity; apply prefix_app_r; reflexivity.
Qed.

(** X5. [function] changes no array that exists, only adds one when it
    solves; it leaves the matrices, the box and the recorded primal point
    and value as they are, and it only adds to the trace of numpy calls. *)
Theorem function_changes_no_array (l : loc) (s s1 : state) (val : Q) :
  function sqrt l s = Ret (val, s1) ->
  (forall k a, heap s !! k = Some a -> heap s1 !! k = Some a) /\
  (length (heap s1) <= length (heap s) + 1)%nat /\
  trace s `prefix_of` trace s1 /\
  Q_ (self s1) = Q_ (self s) /\ q_ (self s1) = q_ (self s) /\
  L (self s1) = L (self s) /\ ub (self s1) = ub (self s) /\
  primal_x (self s1) = primal_x (self s) /\
  primal_f_x (self s1) = primal_f_x (self s).
Proof.
  intros H. pose proof (function_frame_facts _ _ _ _ H)
    as (Hh & Ht & HQ & Hq & HL & Hub & _ & Hpx & Hpf).
  repeat split; auto.
  - intros k a Hk. eapply prefix_lookup_Some; eauto.
  - apply function_Ret in H
      as (lam & lp & ln & ql & lx & x & _ & _ & _ & _ & _ & _ & Hcase).
    destruct Hcase as [[-> _] | [_ Hm]]; [lia|].
    apply solve_and_memoize_Ret in Hm as (x' & L' & y & _ & -> & _).
    rewrite length_app. simpl. lia.
Qed.

(** X6. A second call of [function] at the same array, right after the
    first, returns the same value and changes nothing: it asks numpy for
    nothing and leaves the state as the first call left it. *)
Theorem function_twice (l : loc) (s s1 : state) (val : Q) :
  function sqrt l s = Ret (val, s1) ->
  function sqrt l s1 = Ret (val, s1).
Proof.
  intros H. pose proof (function_frame_facts _ _ _ _ H)
    as (Hh & _ & HQ & Hq & _ & Hub & _).
  apply function_Ret in H
    as (lam & lp & ln & ql & lx & x & Hl & Hs & Hsq & Hx & Hlast & Hv & Hcase).
  assert (Hl1 : heap s1 !! l = Some lam) by (eapply prefix_lookup_Some; eauto).
  assert (Hmemo : memo_lookup lam s1 = Ret (Some lx, s1)).
  { destruct Hcase as [[-> Hm] | [_ Hm]]; [exact Hm|].
    apply solve_and_memoize_Ret in Hm as (x' & L' & y & -> & Hhp & Hself & _).
    eapply (memo_lookup_hit lam lam s1 l); eauto using array_equal_refl.
    rewrite Hself. reflexivity. }
  unfold function.
  rewrite (bind_step _ _ _ _ _ (read_Some _ _ _ Hl1)).
  rewrite Hs. rewrite (bind_step (lift (Ret _)) _ s1 s1 _ eq_refl).
  rewrite (bind_step get _ s1 s1 s1 eq_refl).
  rewrite Hq, Hsq. rewrite (bind_step (lift (Ret _)) _ s1 s1 _ eq_refl).
  rewrite (bind_step _ _ _ _ _ Hmemo).
  rewrite (bind_step (mret lx) _ s1 s1 lx eq_refl).
  rewrite (bind_step _ _ _ _ _ (read_Some _ _ _ Hx)).
  rewrite (dual_value_fields (self s) (self s1)) by assumption.
  rewrite Hv. reflexivity.
Qed.

(** X7. The memo keeps a reference to the array [lmbda], not a copy.  When
    the caller assigns new contents into that same array after a call that
    solved, the next call of [function] on it compares the array with
    itself: it takes the inner point of the old contents from the memo,
    asks numpy for nothing, and returns the dual value of the new [lmbda]
    at the old point. *)
Theorem memo_is_stale_after_in_place_update
    (l : loc) (s s1 : state) (val : Q) (lam lam' : vec) :
  heap s !! l = Some lam ->
  memo_lookup lam s = Ret (None, s) ->
  function sqrt l s = Ret (val, s1) ->
  exists lx x,
    last_x (self s1) = Some lx /\ heap s1 !! lx = Some x /\
    function sqrt l (overwrite l lam' s1) =
      lift (dual_value_at (self s1) lam' x) (overwrite l lam' s1).
Proof.
  intros Hl Hmiss H.
  apply function_Ret in H
    as (lam0 & lp & ln & ql & lx & x & Hl0 & _ & _ & Hx & Hlast & _ & Hcase).
  destruct Hcase as [[_ Hm] | [_ Hm]]; [congruence|].
  apply solve_and_memoize_Ret in Hm as (x' & L' & y & -> & Hh & Hself & _).
  pose proof (lookup_lt_Some _ _ _ Hl) as Hlt.
  exists (length (heap s)), x. split; [assumption|]. split; [assumption|].
  set (s2 := overwrite l lam' s1).
  assert (Hl2 : heap s2 !! l = Some lam').
  { simpl. apply list_lookup_insert_eq. rewrite Hh, length_app. lia. }
  assert (Hx2 : heap s2 !! length (heap s) = Some x).
  { simpl. rewrite list_lookup_insert_ne by lia. exact Hx. }
  assert (Hmemo : memo_lookup lam' s2 = Ret (Some (length (heap s)), s2)).
  { eapply (memo_lookup_hit lam' lam' s2 l); eauto using array_equal_refl.
    simpl. rewrite Hself. reflexivity. }
  unfold function, dual_value_at.
  rewrite (bind_step _ _ _ _ _ (read_Some _ _ _ Hl2)).
  destruct (split2 lam') as [[lmbda_p lmbda_n]|e]; [|reflexivity].
  rewrite (bind_step (lift (Ret _)) _ s2 s2 _ eq_refl).
  rewrite (bind_step get _ s2 s2 s2 eq_refl).
  rewrite result_bind_step.
  change (self s2) with (self s1).
  destruct (shifted_q (q_ (self s1)) lmbda_p lmbda_n) as [ql'|e] eqn:Hq;
    [|reflexivity].
  rewrite (bind_step (lift (Ret _)) _ s2 s2 _ eq_refl).
  rewrite (bind_step _ _ _ _ _ Hmemo).
  rewrite (bind_step (mret _) _ s2 s2 _ eq_refl).
  rewrite (bind_step _ _ _ _ _ (read_Some _ _ _ Hx2)).
  reflexivity.
Qed.

End RelaxationFacts.

Section RelaxationInvariants.

Import LagrangianBoxConstrainedQuadratic Box.

Variable sqrt : Q -> Q.
Variable nearest_posdef : mat -> mat.

(** The state between the two halves of [jacobian]. *)
Lemma jacobian_mid_facts (l : loc) (lam : vec) (lx : loc) (s s_mid : state) :
  heap s !! l = Some lam ->
  (s_mid = s /\ memo_lookup lam s = Ret (Some lx, s)) \/
  (memo_lookup lam s = Ret (None, s) /\
   exists lmbda_p lmbda_n ql,
     split2 lam = Ret (lmbda_p, lmbda_n) /\
     shifted_q (q_ (self s)) lmbda_p lmbda_n = Ret ql /\
     solve_and_memoize sqrt l ql s = Ret (lx, s_mid)) ->
  heap s `prefix_of` heap s_mid /\ last_x (self s_mid) = Some lx /\
  ub (self s_mid) = ub (self s) /\ Q_ (self s_mid) = Q_ (self s) /\
  q_ (self s_mid) = q_ (self s) /\ L (self s_mid) = L (self s) /\
  primal_x (self s_mid) = primal_x (self s) /\
  primal_f_x (self s_mid) = primal_f_x (self s).
Proof.
  intros Hl [[-> Hm] | [_ (lp & ln & ql & _ & _ & Hm)]].
  - apply memo_lookup_Ret in Hm as (_ & l1 & lam1 & _ & _ & _ & Hlast).
    repeat split; auto.
  - apply solve_and_memoize_Ret in Hm as (x' & L' & y & -> & Hh & Hself & _).
    rewrite Hh, Hself. simpl. repeat split; try reflexivity.
    apply prefix_app_r. reflexivity.
Qed.

(** X8. [jacobian] assigns into one array only, the one that [last_x]
    refers to when it returns; every other array keeps its contents, and
    the matrices and the box are left as they are. *)
Theorem jacobian_changes_one_array (l : loc) (s s1 : state) (g : vec) :
  jacobian sqrt l s = Ret (g, s1) ->
  exists lx,
    last_x (self s1) = Some lx /\
    (forall k a, k <> lx -> heap s !! k = Some a -> heap s1 !! k = Some a) /\
    Q_ (self s1) = Q_ (self s) /\ q_ (self s1) = q_ (self s) /\
    L (self s1) = L (self s) /\ ub (self s1) = ub (self s).
Proof.
  intros H.
  apply jacobian_Ret in H as (lam & lx & x & d & s_mid & Hl & Hcase & Hx & _ & _ & Hp).
  pose proof (jacobian_mid_facts l lam lx s s_mid Hl Hcase)
    as (Hpre & Hlast & Hub & HQ & Hq & HL & _).
  apply project_and_record_Ret in Hp as (v & _ & _ & ->).
  exists lx. simpl.
  split; [destruct (xlt _ _); simpl; assumption|].
  split.
  - intros k a Hk Ha. rewrite !list_lookup_insert_ne by auto.
    eapply prefix_lookup_Some; eauto.
  - destruct (xlt _ _); simpl; auto.
Qed.

(** X9. The recorded primal point lies in the box [[0, ub]]: the
    constructor records none, [function] does not touch it, and [jacobian]
    records projected points only (and projects in place an array that is
    already in the box when it is the recorded one). *)
Theorem recorded_primal_point_is_feasible :
  (forall quad u h s,
     init sqrt nearest_posdef quad u h = Ret s -> well_formed s /\ primal_feasible s) /\
  (forall l s s1 val,
     primal_feasible s -> function sqrt l s = Ret (val, s1) -> primal_feasible s1) /\
  (forall l s s1 g,
     well_formed s -> primal_feasible s -> jacobian sqrt l s = Ret (g, s1) ->
     primal_feasible s1).
Proof.
  split; [|split].
  - intros quad u h s H. split; [eapply init_well_formed; eauto|].
    unfold init in H. apply result_bind_Ret in H as (L0 & _ & H).
    destruct (existsb _ u); [discriminate|]. injection H as <-. exact I.
  - intros l s s1 val Hf H.
    apply function_frame_facts in H as (Hh & _ & _ & _ & _ & Hub & _ & Hpx & _).
    unfold primal_feasible in *. rewrite Hpx, Hub.
    destruct (primal_x (self s)) as [|lp]; [exact I|].
    destruct Hf as (p & Hp & Hb). exists p. split; [|assumption].
    eapply prefix_lookup_Some; eauto.
  - intros l s s1 g [Hub0 _] Hf H.
    apply jacobian_Ret in H as (lam & lx & x & d & s_mid & Hl & Hcase & Hx & _ & _ & Hp).
    pose proof (jacobian_mid_facts l lam lx s s_mid Hl Hcase)
      as (Hpre & _ & Hub & _ & _ & _ & Hpx & _).
    apply project_and_record_Ret in Hp as (v & Hlen & _ & ->).
    rewrite Hub in *.
    pose proof (lookup_lt_Some _ _ _ Hx) as Hlt.
    destruct (project_box_facts (ub (self s)) x Hub0 Hlen) as [Hbox _].
    assert (Hat : forall (hp : list vec), (lx < length hp)%nat ->
              <[lx := project (ub (self s)) x]> (<[lx := clip_below x]> hp) !! lx
              = Some (project (ub (self s)) x)).
    { intros hp Hhp. apply list_lookup_insert_eq. now rewrite length_insert. }
    unfold primal_feasible in *. simpl.
    destruct (xlt (Fin v) (primal_f_x (self s_mid))); simpl.
    + rewrite Hub. eauto.
    + rewrite Hpx, Hub. destruct (primal_x (self s)) as [|lp]; [exact I|].
      destruct Hf as (p & Hp & Hb).
      destruct (Nat.eq_dec lp lx) as [->|Hne].
      * eauto.
      * exists p. split; [|assumption].
        rewrite !list_lookup_insert_ne by auto.
        eapply prefix_lookup_Some; eauto.
Qed.

End RelaxationInvariants.

(** ** The LDL^T relaxation *)

Section LDLFacts.

Import LagrangianLDL Box.

(** X10. An evaluation of the LDL^T relaxation asks numpy for three solves
    with the stored factors and for no factorization, and [function]
    leaves the object as it is. *)
Theorem ldl_evaluations_only_solve (lmbda : vec) (s : state) :
  (forall v s', function lmbda s = Ret (v, s') ->
     self s' = self s /\
     exists bP y w,
       trace s' = trace s ++ [Solve (L (self s)) bP; Solve (D (self s)) y;
                              Solve (transpose (L (self s))) w]) /\
  (forall g s', jacobian lmbda s = Ret (g, s') ->
     exists bP y w,
       trace s' = trace s ++ [Solve (L (self s)) bP; Solve (D (self s)) y;
                              Solve (transpose (L (self s))) w]).
Proof.
  split.
  - intros v s' H. unfold function in H.
    apply bind_Ret in H as ([[lp ql] x] & s1 & Hr & H).
    apply relaxed_point_Ret in Hr as [Hs1 Htr].
    apply bind_Ret in H as (t1 & t2 & [= <- <-] & H).
    apply bind_Ret in H as (xQ & t3 & H1 & H). apply lift_Ret in H1 as [_ ->].
    apply bind_Ret in H as (w & t4 & H2 & H). apply lift_Ret in H2 as [_ ->].
    apply bind_Ret in H as (wx & t5 & H3 & H). apply lift_Ret in H3 as [_ ->].
    apply bind_Ret in H as (lu & t6 & H4 & [= _ <-]). apply lift_Ret in H4 as [_ ->].
    auto.
  - intros g s' H. unfold jacobian in H.
    apply bind_Ret in H as ([[lp ql] x] & s1 & Hr & H).
    apply relaxed_point_Ret in Hr as [Hs1 Htr].
    apply bind_Ret in H as (t1 & t2 & [= <- <-] & H).
    apply bind_Ret in H as (d & t3 & Hd & H). apply lift_Ret in Hd as [_ ->].
    apply bind_Ret in H as ([] & t4 & Hshape & H).
    destruct (same_shape _ _); [|discriminate]. injection Hshape as <-.
    apply bind_Ret in H as (v & t5 & Hv & H). apply lift_Ret in Hv as [_ ->].
    apply bind_Ret in H as ([] & t6 & Hup & [= _ <-]).
    destruct (xlt _ _); injection Hup as <-; exact Htr.
Qed.

(** X11. In the LDL^T relaxation too the recorded primal point lies in the
    box, when the box has no negative bound: [jacobian] keeps it so. *)
Theorem ldl_recorded_primal_point_is_feasible (lmbda g : vec) (s s' : state) :
  Forall (Qle 0) (ub (self s)) ->
  ldl_primal_feasible s ->
  jacobian lmbda s = Ret (g, s') ->
  ub (self s') = ub (self s) /\ ldl_primal_feasible s'.
Proof.
  intros Hub Hf H. unfold jacobian in H.
  apply bind_Ret in H as ([[lp ql] x] & s1 & Hr & H).
  apply relaxed_point_Ret in Hr as [Hs1 _].
  apply bind_Ret in H as (t1 & t2 & [= <- <-] & H).
  apply bind_Ret in H as (d & t3 & Hd & H). apply lift_Ret in Hd as [_ ->].
  apply bind_Ret in H as ([] & t4 & Hshape & H).
  destruct (same_shape _ _) eqn:Es; [|discriminate]. injection Hshape as <-.
  apply bind_Ret in H as (v & t5 & Hv & H). apply lift_Ret in Hv as [_ ->].
  apply bind_Ret in H as ([] & t6 & Hup & [= _ <-]).
  apply same_shape_length in Es.
  rewrite length_clip_below in Es.
  rewrite Hs1 in *.
  destruct (xlt _ _); injection Hup as <-; unfold ldl_primal_feasible; simpl;
    rewrite ?Hs1; [|auto].
  split; [reflexivity|].
  apply (project_box_facts (ub (self s)) x Hub Es).
Qed.

End LDLFacts.

(** ** AcceleratedGradient with a fixed step *)

Section FixedStep.

Import AcceleratedGradient AcceleratedGradientRuns.

Variable sqrt : Q -> Q.
Variable backtracking_line_search :
  Objective -> vec -> vec -> vec -> vec -> Z -> Z -> Q -> Q -> Q -> Q -> Q -> Q ->
  result line_search_result.
Variable c : config.

Hypothesis fixed_step : Qlt_bool 0 (m1 c) = false.
Hypothesis formula : (0 <= wf c <= 3)%Z.
Hypothesis objective_total :
  forall p, length p = n c ->
    exists v g, function (f c) p = Ret v /\ jacobian (f c) p = Ret g /\
                length g = n c.

Lemma keep_best_ready (s : locals) (v : Q) :
  ready c s ->
  exists x1 pxv1,
    keep_best c s v = Ret (x1, pxv1) /\ length x1 = n c /\
    (truthy (mon c) = true -> exists p, pxv1 = Some p).
Proof.
  intros (Hx & Hy & Hmon). unfold keep_best.
  destruct (truthy (mon c)) eqn:Em.
  - destruct (Hmon eq_refl) as [[p Hp] _]. rewrite Hp. simpl.
    destruct (xlt (Fin v) p); eauto 6.
  - exists (x s), (past_xv s). repeat split; auto. discriminate.
Qed.

Lemma length_vscale (a : Q) (v : vec) : length (vscale a v) = length v.
Proof. unfold vscale. apply length_map. Qed.

Lemma length_vneg (v : vec) : length (vneg v) = length v.
Proof. unfold vneg. apply length_map. Qed.

Lemma step_size_fixed (s : locals) (x_now g : vec) (v ng : Q) (fe : Z) :
  length (y s) = n c -> length g = n c ->
  exists lx xv2,
    step_size backtracking_line_search c s x_now v ng g fe
      = Ret (Qabs (a_start s), v, lx, last_g s, fe, a_start s, xv2) /\
    length lx = n c /\
    (truthy (mon c) = true -> exists q, xv2 = Some q).
Proof.
  intros Hy Hg. unfold step_size. rewrite fixed_step.
  unfold vsub. rewrite elementwise_same by (rewrite length_vscale; lia).
  rewrite result_bind_step.
  set (lx := zip_with_Q Qminus (y s) (vscale (Qabs (a_start s)) g)).
  assert (Hlx : length lx = n c).
  { unfold lx. rewrite length_zip_with_Q; rewrite ?length_vscale; lia. }
  destruct (truthy (mon c)) eqn:Em.
  - destruct (objective_total lx Hlx) as (v' & g' & Hv' & _).
    rewrite Hv'. simpl. exists lx, (Some v'). repeat split; eauto.
  - simpl. exists lx, (xv s). repeat split; auto. discriminate.
Qed.

Lemma monotone_update_ready (s : locals) (lx : vec) (pxv1 : option xreal)
    (xv2 : option Q) :
  ready c s -> length lx = n c ->
  (truthy (mon c) = true -> exists p, pxv1 = Some p) ->
  (truthy (mon c) = true -> exists q, xv2 = Some q) ->
  exists lx3 px3 pxv3,
    monotone_update c lx pxv1 s xv2 = Ret (lx3, px3, pxv3) /\
    length lx3 = n c /\
    (truthy (mon c) = true ->
     (exists p, pxv3 = Some p) /\ (exists px, px3 = Some px /\ length px = n c)).
Proof.
  intros (_ & _ & Hmon) Hlx Hp Hq. unfold monotone_update.
  destruct (truthy (mon c)) eqn:Em.
  - destruct (Hp eq_refl) as [p ->]. destruct (Hq eq_refl) as [q ->].
    destruct (Hmon eq_refl) as [_ (px & Hpx & Hlen)]. simpl.
    destruct (xlt p (Fin q)).
    + rewrite Hpx. simpl. exists px, (Some px), (Some p). eauto 10.
    + exists lx, (Some lx), (Some (Fin q)). eauto 10.
  - exists lx, (past_x s), pxv1. repeat split; auto; discriminate.
Qed.

Lemma momentum_beta (s : locals) :
  (wf c <? 3)%Z = true -> exists b, snd (momentum sqrt c s) = Some b.
Proof.
  intros Hw. apply Z.ltb_lt in Hw. unfold momentum.
  destruct (wf c =? 0)%Z eqn:E0; [simpl; eauto|].
  destruct (wf c =? 1)%Z eqn:E1; [simpl; eauto|].
  destruct (wf c =? 2)%Z eqn:E2; [simpl; eauto|].
  apply Z.eqb_neq in E0, E1, E2. lia.
Qed.

Lemma next_y_ready (s : locals) (x_now lx g : vec) (a : Q) (beta_now : option Q) :
  length x_now = n c -> length lx = n c -> length g = n c ->
  ((wf c <? 3)%Z = true -> exists b, beta_now = Some b) ->
  exists y4, next_y c s x_now lx g a beta_now = Ret y4 /\ length y4 = n c.
Proof.
  intros Hx Hlx Hg Hb. unfold next_y.
  destruct (wf c <? 3)%Z.
  - destruct (Hb eq_refl) as [b ->]. simpl.
    unfold vsub. rewrite elementwise_same by lia. rewrite result_bind_step.
    unfold vadd. rewrite elementwise_same
      by (rewrite length_vscale, length_zip_with_Q; lia).
    eexists. split; [reflexivity|]. rewrite length_zip_with_Q; auto.
    rewrite length_vscale, length_zip_with_Q; lia.
  - unfold vadd.
    rewrite elementwise_same by (rewrite !length_vscale, length_vneg; lia).
    rewrite result_bind_step.
    rewrite elementwise_same
      by (rewrite !length_vscale, length_zip_with_Q;
          rewrite ?length_vscale, ?length_vneg; lia).
    eexists. split; [reflexivity|].
    rewrite length_zip_with_Q; rewrite !length_vscale;
      rewrite ?length_zip_with_Q; rewrite ?length_vscale, ?length_vneg; lia.
Qed.

(** One pass with a fixed step: it breaks or goes on, and does not raise. *)
Lemma iteration_fixed_step (s : locals) :
  ready c s ->
  (exists xb st, iteration sqrt backtracking_line_search c s = Ret (Break xb st)) \/
  (exists s', iteration sqrt backtracking_line_search c s = Ret (Continue s') /\
              ready c s' /\ f_eval s' = (f_eval s + 1)%Z /\
              (f_eval s + 1 <= max_f_eval c)%Z /\ i s' = (i s + 1)%Z /\
              a_start s' = a_start s).
Proof.
  intros Hr. pose proof Hr as (Hx & Hy & Hmon).
  destruct (objective_total (y s) Hy) as (v & g & Hv & Hg & Hlg).
  destruct (keep_best_ready s v Hr) as (x1 & pxv1 & Hk & Hx1 & Hp1).
  destruct (step_size_fixed s x1 g v (norm sqrt g) (f_eval s + 1) Hy Hlg)
    as (lx & xv2 & Hs & Hlx & Hq2).
  destruct (monotone_update_ready s lx pxv1 xv2 Hr Hlx Hp1 Hq2)
    as (lx3 & px3 & pxv3 & Hm & Hlx3 & Hmon3).
  pose proof (momentum_beta s) as Hb.
  destruct (momentum sqrt c s) as [gamma4 beta4] eqn:Emom. simpl in Hb.
  destruct (next_y_ready s x1 lx3 g (Qabs (a_start s)) beta4 Hx1 Hlx3 Hlg Hb)
    as (y4 & Hy4 & Hly4).
  unfold iteration. rewrite Hv, Hg, !result_bind_step. rewrite Hk, result_bind_step.
  destruct (stop_test c s (norm sqrt g)); [eauto|].
  destruct (f_eval s + 1 >? max_f_eval c)%Z eqn:Eb; [eauto|].
  rewrite Hs, result_bind_step.
  destruct (Qle_bool (Qabs (a_start s)) (min_a c)); [eauto|].
  destruct (xle (Fin v) (m_inf c)); [eauto|].
  rewrite Hm, result_bind_step. rewrite Emom. rewrite Hy4, result_bind_step.
  right. eexists. split; [reflexivity|]. simpl.
  repeat split; auto; try lia;
    match goal with
    | H : truthy (mon c) = true |- _ => destruct (Hmon3 H) as [? ?]; simpl; auto
    end.
Qed.

Lemma loop_fixed_step (fuel : nat) (s : locals) :
  ready c s ->
  (Z.to_nat (max_f_eval c - f_eval s) < fuel)%nat ->
  exists xb st,
    loop sqrt backtracking_line_search c fuel s = Some (Ret (xb, st)).
Proof.
  revert s. induction fuel as [|fuel IH]; intros s Hr Hfuel; [lia|].
  simpl. destruct (iteration_fixed_step s Hr)
    as [(xb & st & ->) | (s' & -> & Hr' & Hf & Hle & _)].
  - eauto.
  - apply IH; [assumption|]. rewrite Hf. lia.
Qed.

Lemma start_ready : length (x0 c) = n c -> ready c (start c).
Proof.
  intros H. unfold ready, start. simpl. repeat split; auto.
  - destruct (truthy (mon c)); [eauto | discriminate].
  - destruct (truthy (mon c)); [eauto | discriminate].
Qed.

End FixedStep.

(** X12. With a fixed step ([m1 = 0]) and a formula [wf] in 0..3, on an
    objective that answers at every point of its dimension,
    [AcceleratedGradient.minimize] raises nothing and returns a point and a
    status after at most [max_f_eval] passes of its loop (one pass when
    [max_f_eval] is below 1), in the monotone version as in the other. *)
Theorem fixed_step_minimize_returns
    (sqrt : Q -> Q)
    (backtracking_line_search :
       Objective -> vec -> vec -> vec -> vec -> Z -> Z -> Q -> Q -> Q -> Q -> Q -> Q ->
       result AcceleratedGradient.line_search_result)
    (c : AcceleratedGradient.config) (fs : xreal) (fuel : nat) :
  AcceleratedGradient.m1 c == 0 ->
  (0 <= AcceleratedGradient.wf c <= 3)%Z ->
  lower_bound (AcceleratedGradient.f c) = Ret fs ->
  length (AcceleratedGradient.x0 c) = AcceleratedGradient.n c ->
  (forall p, length p = AcceleratedGradient.n c ->
     exists v g, function (AcceleratedGradient.f c) p = Ret v /\
                 jacobian (AcceleratedGradient.f c) p = Ret g /\
                 length g = AcceleratedGradient.n c) ->
  (Z.to_nat (AcceleratedGradient.max_f_eval c - 1) < fuel)%nat ->
  exists xb st,
    AcceleratedGradient.minimize sqrt backtracking_line_search c fuel
      = Some (Ret (xb, st)).
Proof.
  intros Hm Hw Hfs Hx Hobj Hfuel.
  unfold AcceleratedGradient.minimize. rewrite Hfs.
  apply loop_fixed_step; auto.
  - apply not_true_iff_false. rewrite Qlt_bool_iff. lra.
  - now apply start_ready.
Qed.

Lemma fixed_step_minimize_returns_witness :
  exists xb st,
    AcceleratedGradient.minimize exact_sqrt Examples.backtracking_line_search
      Examples.relative_config 2 = Some (Ret (xb, st)).
Proof.
  apply (fixed_step_minimize_returns exact_sqrt Examples.backtracking_line_search
           Examples.relative_config (Fin 0) 2).
  - reflexivity.
  - simpl. lia.
  - reflexivity.
  - reflexivity.
  - intros p Hp. exists ((1 # 2) * sum_products p p), p. auto.
  - simpl. lia.
Defined.

Section AcceleratedGradientPasses.

Import AcceleratedGradient AcceleratedGradientRuns.

Variable sqrt : Q -> Q.
Variable backtracking_line_search :
  Objective -> vec -> vec -> vec -> vec -> Z -> Z -> Q -> Q -> Q -> Q -> Q -> Q ->
  result line_search_result.
Variable c : config.

(** What a pass that goes on has computed. *)
Lemma iteration_Continue_AG (s s' : locals) :
  iteration sqrt backtracking_line_search c s = Ret (Continue s') ->
  exists v g x1 pxv1 a v2 lx lg fe2 a2 xv2 lx3 px3 pxv3 y4,
    function (f c) (y s) = Ret v /\ jacobian (f c) (y s) = Ret g /\
    keep_best c s v = Ret (x1, pxv1) /\
    stop_test c s (norm sqrt g) = false /\
    step_size backtracking_line_search c s x1 v (norm sqrt g) g (f_eval s + 1)
      = Ret (a, v2, lx, lg, fe2, a2, xv2) /\
    Qle_bool a (min_a c) = false /\
    monotone_update c lx pxv1 s xv2 = Ret (lx3, px3, pxv3) /\
    s' = {| x := lx3; a_start := a2; last_x := lx3; last_g := lg; f_eval := fe2;
            i := (i s + 1)%Z; gamma := fst (momentum sqrt c s); y := y4;
            past_x := px3; past_xv := pxv3; xv := xv2;
            beta := snd (momentum sqrt c s) |}.
Proof.
  unfold iteration. intros H.
  apply result_bind_Ret in H as (v & Hv & H).
  apply result_bind_Ret in H as (g & Hg & H).
  apply result_bind_Ret in H as ([x1 pxv1] & Hk & H).
  destruct (stop_test c s (norm sqrt g)) eqn:Es; [discriminate|].
  destruct (f_eval s + 1 >? max_f_eval c)%Z; [discriminate|].
  apply result_bind_Ret in H as ([[[[[[a v2] lx] lg] fe2] a2] xv2] & Hs & H).
  destruct (Qle_bool a (min_a c)) eqn:Ea; [discriminate|].
  destruct (xle (Fin v2) (m_inf c)); [discriminate|].
  apply result_bind_Ret in H as ([[lx3 px3] pxv3] & Hm & H).
  destruct (momentum sqrt c s) as [gamma4 beta4].
  apply result_bind_Ret in H as (y4 & Hy & [= <-]).
  exists v, g, x1, pxv1, a, v2, lx, lg, fe2, a2, xv2, lx3, px3, pxv3, y4.
  auto 12.
Qed.

(** X14. The starting step [a_start] changes in one case only: with a line
    search and a negative [a_start], it becomes minus the step [a] that the
    line search returned for this pass, a step above [min_a]; so it stays
    negative when [min_a] is not.  With a fixed step, or when [a_start] is
    not negative, a pass leaves it as it is. *)
Theorem a_start_follows_accepted_step (s s' : locals) :
  iteration sqrt backtracking_line_search c s = Ret (Continue s') ->
  (Qlt_bool 0 (m1 c) = false -> a_start s' = a_start s) /\
  (0 <= a_start s -> a_start s' = a_start s) /\
  (Qlt_bool 0 (m1 c) = true -> a_start s < 0 ->
   exists v g x1 pxv1 r,
     function (f c) (y s) = Ret v /\ jacobian (f c) (y s) = Ret g /\
     keep_best c s v = Ret (x1, pxv1) /\
     backtracking_line_search (f c) (vneg g) x1 (last_x s) (last_g s)
       (f_eval s + 1) (max_f_eval c) (min_a c) v (- norm sqrt g)
       (Qabs (a_start s)) (m1 c) (tau c) = Ret r /\
     a_start s' = - ls_a r /\ min_a c < ls_a r /\
     (0 <= min_a c -> a_start s' < 0)).
Proof.
  intros H.
  apply iteration_Continue_AG in H
    as (v & g & x1 & pxv1 & a & v2 & lx & lg & fe2 & a2 & xv2 & lx3 & px3 & pxv3 & y4 &
        Hv & Hg & Hk & _ & Hs & Ha & _ & ->).
  simpl. unfold step_size in Hs.
  apply not_true_iff_false in Ha. rewrite Qle_bool_iff in Ha.
  destruct (Qlt_bool 0 (m1 c)) eqn:Em.
  - apply result_bind_Ret in Hs as (r & Hr & Hs). injection Hs as <- _ _ _ _ <- _.
    split; [discriminate|]. split.
    + intros Hpos. destruct (Qlt_bool (a_start s) 0) eqn:E; [|reflexivity].
      apply Qlt_bool_iff in E. lra.
    + intros _ Hneg. apply Qlt_bool_iff in Hneg. rewrite Hneg.
      exists v, g, x1, pxv1, r.
      repeat (split; [assumption || reflexivity|]).
      split; [lra|]. intros Hmin. lra.
  - apply result_bind_Ret in Hs as (lx' & _ & Hs).
    apply result_bind_Ret in Hs as (xv' & _ & Hs). injection Hs as _ _ _ _ _ <- _.
    repeat split; auto; discriminate.
Qed.

(** The loop ends at the last state of the history. *)
Lemma loop_result_AG (fuel : nat) (s0 : locals) (xb : vec) (st : status) :
  loop sqrt backtracking_line_search c fuel s0 = Some (Ret (xb, st)) ->
  exists k s,
    history sqrt backtracking_line_search c fuel s0 !! k = Some s /\
    iteration sqrt backtracking_line_search c s = Ret (Break xb st).
Proof.
  revert s0. induction fuel as [|fuel IH]; intros s0 H; [discriminate|].
  simpl in H. simpl.
  destruct (iteration sqrt backtracking_line_search c s0) as [[s1|xb' st']|e] eqn:E.
  - apply IH in H as (k & s & Hk & Hit). exists (S k), s. auto.
  - injection H as <- <-. exists 0%nat, s0. auto.
  - discriminate.
Qed.

(** X15. With [eps >= 0], a run that returns [optimal] has met, at the
    auxiliary point [y] of its last pass, a gradient of norm at most [eps].
    The point it returns is [x]: in the non-monotone version the point of
    the pass before, not [y]. *)
Theorem optimal_means_small_gradient_at_y (fuel : nat) (xb : vec) :
  0 <= eps c ->
  minimize sqrt backtracking_line_search c fuel = Some (Ret (xb, optimal)) ->
  exists k s g,
    history sqrt backtracking_line_search c fuel (start c) !! k = Some s /\
    jacobian (f c) (y s) = Ret g /\ norm sqrt g <= eps c /\
    (truthy (mon c) = false -> xb = x s).
Proof.
  intros He H. unfold minimize in H.
  destruct (lower_bound (f c)); [|discriminate].
  apply loop_result_AG in H as (k & s & Hk & Hit).
  exists k, s. unfold iteration in Hit.
  destruct (function (f c) (y s)) as [v|] eqn:Hv; [|discriminate].
  destruct (jacobian (f c) (y s)) as [g|] eqn:Hg; [|discriminate].
  rewrite !result_bind_step in Hit.
  exists g. split; [assumption|]. split; [reflexivity|].
  destruct (keep_best c s v) as [[x1 pxv1]|] eqn:Hk1; [|discriminate].
  rewrite result_bind_step in Hit.
  assert (Hx1 : truthy (mon c) = false -> x1 = x s).
  { intros Hm. unfold keep_best in Hk1. rewrite Hm in Hk1. now injection Hk1. }
  destruct (stop_test c s (norm sqrt g)) eqn:Es.
  - injection Hit as <-. split; [|auto].
    unfold stop_test, scale_ng0 in Es.
    assert (Hn : Qlt_bool (eps c) 0 = false).
    { apply not_true_iff_false. rewrite Qlt_bool_iff. lra. }
    rewrite Hn, andb_false_r in Es. apply Qle_bool_iff in Es. lra.
  - exfalso.
    destruct (f_eval s + 1 >? max_f_eval c)%Z; [discriminate|].
    destruct (step_size _ _ _ _ _ _ _ _) as [[[[[[[a1 v2] lx] lg] fe2] a2] xv2]|];
      [|discriminate].
    rewrite result_bind_step in Hit.
    destruct (Qle_bool a1 (min_a c)); [discriminate|].
    destruct (xle (Fin v2) (m_inf c)); [discriminate|].
    destruct (monotone_update _ _ _ _ _) as [[[lx3 px3] pxv3]|]; [|discriminate].
    rewrite result_bind_step in Hit.
    destruct (momentum sqrt c s) as [gamma4 beta4].
    destruct (next_y _ _ _ _ _ _ _); discriminate.
Qed.

End AcceleratedGradientPasses.

Lemma a_start_follows_accepted_step_witness :
  let c := {| AcceleratedGradient.f := Examples.half_square;
              AcceleratedGradient.n := 1; AcceleratedGradient.x0 := [4];
              AcceleratedGradient.a_start0 := - (1); AcceleratedGradient.m1 := 1 # 10;
              AcceleratedGradient.mon := 0; AcceleratedGradient.wf := 2;
              AcceleratedGradient.eps := 1 # 1000000;
              AcceleratedGradient.max_f_eval := 10;
              AcceleratedGradient.tau := 9 # 10; AcceleratedGradient.m_inf := NInf;
              AcceleratedGradient.min_a := 0 |} in
  exists s' r,
    AcceleratedGradient.iteration exact_sqrt Examples.backtracking_line_search c
      (AcceleratedGradient.start c) = Ret (AcceleratedGradient.Continue s') /\
    Examples.backtracking_line_search Examples.half_square [-4] [4] [4] [0] 2 10 0
      8 (- (4)) 1 (1 # 10) (9 # 10) = Ret r /\
    AcceleratedGradient.ls_a r = 1 /\
    AcceleratedGradient.a_start s' = - AcceleratedGradient.ls_a r /\
    AcceleratedGradient.a_start s' < 0.
Proof.
  intros c.
  destruct (AcceleratedGradient.iteration exact_sqrt Examples.backtracking_line_search c
              (AcceleratedGradient.start c)) as [[s'|]|] eqn:E;
    try (vm_compute in E; discriminate).
  destruct (a_start_follows_accepted_step exact_sqrt Examples.backtracking_line_search c
              (AcceleratedGradient.start c) s' E) as (_ & _ & H).
  destruct H as (v & g & x1 & pxv1 & r & Hv & Hg & Hk & Hr & Ha & _ & Hneg);
    [reflexivity | reflexivity |].
  vm_compute in Hv. injection Hv as <-.
  vm_compute in Hg. injection Hg as <-.
  vm_compute in Hk. injection Hk as <- _.
  exists s', r.
  split; [reflexivity|].
  split; [|split; [|split; [exact Ha | apply Hneg; discriminate]]].
  - rewrite <- Hr. vm_compute. reflexivity.
  - vm_compute in Hr. injection Hr as <-. reflexivity.
Defined.

Lemma optimal_means_small_gradient_at_y_witness :
  let c := {| AcceleratedGradient.f := Examples.half_square;
              AcceleratedGradient.n := 1; AcceleratedGradient.x0 := [4];
              AcceleratedGradient.a_start0 := 1; AcceleratedGradient.m1 := 0;
              AcceleratedGradient.mon := 0; AcceleratedGradient.wf := 2;
              AcceleratedGradient.eps := 1 # 1000000;
              AcceleratedGradient.max_f_eval := 10;
              AcceleratedGradient.tau := 9 # 10; AcceleratedGradient.m_inf := NInf;
              AcceleratedGradient.min_a := 0 |} in
  exists s g,
    jacobian (AcceleratedGradient.f c) (AcceleratedGradient.y s) = Ret g /\
    norm exact_sqrt g <= AcceleratedGradient.eps c.
Proof.
  intros c.
  assert (E : exists xb,
             AcceleratedGradient.minimize exact_sqrt Examples.backtracking_line_search
               c 5 = Some (Ret (xb, optimal)))
    by (eexists; vm_compute; reflexivity).
  destruct E as [xb E].
  destruct (optimal_means_small_gradient_at_y exact_sqrt Examples.backtracking_line_search
              c 5 xb) as (k & s & g & _ & Hg & Hn & _).
  - discriminate.
  - exact E.
  - exists s, g. auto.
Defined.


(** ** The further properties on concrete runs *)

Section FurtherWitnesses.

Import Examples.

Lemma function_changes_no_array_witness :
  exists val s1,
    LagrangianBoxConstrainedQuadratic.function exact_sqrt 0%nat relaxation_state
      = Ret (val, s1) /\
    LagrangianBoxConstrainedQuadratic.heap s1 !! 0%nat = Some [0; 7] /\
    LagrangianBoxConstrainedQuadratic.primal_f_x
      (LagrangianBoxConstrainedQuadratic.self s1) = PInf.
Proof.
  destruct (LagrangianBoxConstrainedQuadratic.function exact_sqrt 0%nat relaxation_state)
    as [[val s1]|] eqn:E; [|vm_compute in E; discriminate].
  exists val, s1. split; [reflexivity|].
  destruct (function_changes_no_array exact_sqrt 0%nat relaxation_state s1 val E)
    as (Hh & _ & _ & _ & _ & _ & _ & _ & Hpf).
  split; [apply Hh; reflexivity | exact Hpf].
Defined.

Lemma function_twice_witness :
  exists val s1,
    LagrangianBoxConstrainedQuadratic.function exact_sqrt 0%nat relaxation_state
      = Ret (val, s1) /\
    LagrangianBoxConstrainedQuadratic.function exact_sqrt 0%nat s1 = Ret (val, s1).
Proof.
  destruct (LagrangianBoxConstrainedQuadratic.function exact_sqrt 0%nat relaxation_state)
    as [[val s1]|] eqn:E; [|vm_compute in E; discriminate].
  exists val, s1. split; [reflexivity|].
  exact (function_twice exact_sqrt 0%nat relaxation_state s1 val E).
Defined.

(** [function] at [lmbda = (0, 7)] memoizes the inner point 7; after the
    caller writes [(0, 1)] into the same array, [function] on it still
    uses 7, where a solve would give 1. *)
Lemma memo_is_stale_after_in_place_update_witness :
  exists val s1 x,
    LagrangianBoxConstrainedQuadratic.function exact_sqrt 0%nat relaxation_state
      = Ret (val, s1) /\
    LagrangianBoxConstrainedQuadratic.heap s1 !! 3%nat = Some x /\
    array_equal x [7] = true /\
    LagrangianBoxConstrainedQuadratic.function exact_sqrt 0%nat
      (Box.overwrite 0%nat [0; 1] s1) =
    lift (Box.dual_value_at (LagrangianBoxConstrainedQuadratic.self s1) [0; 1] x)
         (Box.overwrite 0%nat [0; 1] s1).
Proof.
  destruct (LagrangianBoxConstrainedQuadratic.function exact_sqrt 0%nat relaxation_state)
    as [[val s1]|] eqn:E; [|vm_compute in E; discriminate].
  destruct (memo_is_stale_after_in_place_update exact_sqrt 0%nat relaxation_state s1
              val [0; 7] [0; 1] eq_refl eq_refl E) as (lx & x & Hlx & Hx & Hf).
  exists val, s1, x.
  vm_compute in E. injection E as <- <-.
  vm_compute in Hlx. injection Hlx as <-.
  split; [reflexivity|]. split; [exact Hx|].
  split; [|exact Hf].
  vm_compute in Hx. injection Hx as <-. reflexivity.
Defined.

Lemma jacobian_changes_one_array_witness :
  exists g s1,
    LagrangianBoxConstrainedQuadratic.jacobian exact_sqrt 0%nat relaxation_state
      = Ret (g, s1) /\
    LagrangianBoxConstrainedQuadratic.heap s1 !! 0%nat = Some [0; 7] /\
    LagrangianBoxConstrainedQuadratic.heap s1 !! 1%nat = Some [0; 1].
Proof.
  destruct (LagrangianBoxConstrainedQuadratic.jacobian exact_sqrt 0%nat relaxation_state)
    as [[g s1]|] eqn:E; [|vm_compute in E; discriminate].
  exists g, s1. split; [reflexivity|].
  destruct (jacobian_changes_one_array exact_sqrt 0%nat relaxation_state s1 g E)
    as (lx & Hlx & Hh & _).
  assert (lx = 3%nat) as ->.
  { vm_compute in E. injection E as _ <-. vm_compute in Hlx. congruence. }
  split; apply Hh; (lia || reflexivity).
Defined.

Lemma recorded_primal_point_is_feasible_witness :
  exists g s1,
    LagrangianBoxConstrainedQuadratic.jacobian exact_sqrt 0%nat relaxation_state
      = Ret (g, s1) /\
    Box.primal_feasible s1.
Proof.
  destruct (LagrangianBoxConstrainedQuadratic.jacobian exact_sqrt 0%nat relaxation_state)
    as [[g s1]|] eqn:E; [|vm_compute in E; discriminate].
  exists g, s1. split; [reflexivity|].
  destruct (recorded_primal_point_is_feasible exact_sqrt id) as (Hinit & _ & Hjac).
  destruct (Hinit quad_unit [5] [[0; 7]; [0; 1]; [0; 7]] relaxation_state eq_refl)
    as [Hwf Hfe].
  exact (Hjac 0%nat relaxation_state s1 g Hwf Hfe E).
Defined.

Lemma ldl_evaluations_only_solve_witness :
  exists s0 v s1 solves,
    LagrangianLDL.init ldl_unit quad_unit [5] = Ret s0 /\
    LagrangianLDL.function [0; 7] s0 = Ret (v, s1) /\
    LagrangianLDL.trace s1 = LagrangianLDL.trace s0 ++ solves /\
    length solves = 3%nat /\
    LagrangianLDL.self s1 = LagrangianLDL.self s0.
Proof.
  destruct (LagrangianLDL.init ldl_unit quad_unit [5]) as [s0|] eqn:E0;
    [|vm_compute in E0; discriminate].
  destruct (LagrangianLDL.function [0; 7] s0) as [[v s1]|] eqn:E1;
    [|vm_compute in E0; injection E0 as <-; vm_compute in E1; discriminate].
  destruct (ldl_evaluations_only_solve [0; 7] s0) as [H _].
  destruct (H v s1 E1) as (Hs & bP & y & w & Ht).
  exists s0, v, s1. eexists. repeat split; eauto.
Defined.

Lemma ldl_recorded_primal_point_is_feasible_witness :
  exists s0 g s1,
    LagrangianLDL.init ldl_unit quad_unit [5] = Ret s0 /\
    LagrangianLDL.jacobian [0; 7] s0 = Ret (g, s1) /\
    Box.ldl_primal_feasible s1.
Proof.
  destruct (LagrangianLDL.init ldl_unit quad_unit [5]) as [s0|] eqn:E0;
    [|vm_compute in E0; discriminate].
  destruct (LagrangianLDL.jacobian [0; 7] s0) as [[g s1]|] eqn:E1;
    [|vm_compute in E0; injection E0 as <-; vm_compute in E1; discriminate].
  exists s0, g, s1. repeat split; auto.
  assert (Hs0 : LagrangianLDL.ub (LagrangianLDL.self s0) = [5] /\
                LagrangianLDL.primal_solution (LagrangianLDL.self s0) = None).
  { vm_compute in E0. injection E0 as <-. split; reflexivity. }
  destruct Hs0 as [Hub Hps].
  apply (ldl_recorded_primal_point_is_feasible [0; 7] g s0 s1).
  - rewrite Hub. repeat constructor. discriminate.
  - unfold Box.ldl_primal_feasible. now rewrite Hps.
  - exact E1.
Defined.

End FurtherWitnesses.

(** ** Two more facts about the memoized relaxation *)

Section RelaxationEdges.

Import LagrangianBoxConstrainedQuadratic Box.

Variable sqrt : Q -> Q.

(** X20. The relaxation has no answer to [function([])], the question a
    solver asks first: on an empty array, with a [q] of two components or
    more, it raises a [ValueError] ([q + lmbda_p] has operands of different
    shapes), whatever the memo holds. *)
Theorem function_on_empty_array_raises (l : loc) (s : state) :
  heap s !! l = Some [] ->
  (1 < length (q_ (self s)))%nat ->
  function sqrt l s = Raise ValueError.
Proof.
  intros Hl Hq. unfold function.
  rewrite (bind_step _ _ _ _ _ (read_Some _ _ _ Hl)).
  change (split2 []) with (Ret (([] : vec), ([] : vec))).
  rewrite (bind_step (lift (Ret _)) _ s s _ eq_refl).
  rewrite (bind_step get _ s s s eq_refl).
  unfold shifted_q, vadd, elementwise, same_shape.
  destruct (q_ (self s)) as [|q0 q]; [simpl in Hq; lia|]. reflexivity.
Qed.

(** X21. On a box without negative bounds, the projection that [jacobian]
    does in place is, component by component, [clip(x, 0, ub)] of
    [utils.py]. *)
Theorem project_is_clip (u x : vec) :
  Forall (Qle 0) u -> length x = length u ->
  Forall2 Qeq (project u x) (zip_with_Q (fun xi ui => Utils.clip xi 0 ui) x u).
Proof.
  intros Hu. revert x. induction Hu as [|ui u Hui Hu IH]; intros [|xi x] Hlen;
    try discriminate; [constructor|].
  injection Hlen as Hlen. specialize (IH x Hlen).
  unfold project, clip_above, clip_below in *. simpl.
  constructor; [|exact IH].
  unfold Utils.clip, Utils.py_max, Utils.py_min.
  destruct (Qlt_bool xi 0) eqn:E1; destruct (Qlt_bool ui xi) eqn:E2;
    repeat match goal with
           | |- context [Qlt_bool ?a ?b] => destruct (Qlt_bool a b) eqn:?
           end;
    repeat match goal with
           | H : Qlt_bool _ _ = true |- _ => apply Qlt_bool_iff in H
           | H : Qlt_bool _ _ = false |- _ =>
               apply not_true_iff_false in H; rewrite Qlt_bool_iff in H
           end;
    lra.
Qed.

End RelaxationEdges.

Lemma function_on_empty_array_raises_witness :
  exists s0,
    LagrangianBoxConstrainedQuadratic.init exact_sqrt id Examples.quad_diag [1; 1] [[]]
      = Ret s0 /\
    LagrangianBoxConstrainedQuadratic.function exact_sqrt 0%nat s0 = Raise ValueError.
Proof.
  destruct (LagrangianBoxConstrainedQuadratic.init exact_sqrt id Examples.quad_diag
              [1; 1] [[]]) as [s0|] eqn:E; [|vm_compute in E; discriminate].
  exists s0. split; [reflexivity|].
  vm_compute in E. injection E as <-.
  apply (function_on_empty_array_raises exact_sqrt 0%nat).
  - reflexivity.
  - simpl. lia.
Defined.

Lemma project_is_clip_witness :
  Forall2 Qeq (LagrangianBoxConstrainedQuadratic.project [5; 1] [7; -3])
              (zip_with_Q (fun xi ui => Utils.clip xi 0 ui) [7; -3] [5; 1]).
Proof.
  apply (project_is_clip [5; 1] [7; -3]); [|reflexivity].
  repeat constructor; discriminate.
Defined.
